(** * Collapsible.svelte: attachment resolution, dispatch and disclosure

    A shallow embedding of [src/lib/components/common/Collapsible.svelte]
    (the [<script>] block and the markup), together with the properties
    stated about it.

    Conventions.
    - A JavaScript string is a [string]: the bytes of its code units, a
      code unit below 128 being one character and any other one two or
      three (the encoding of [JSON.fromCharCode]).  Prefix tests, searches
      for a pattern of characters below 128 and splitting at such a
      character act on the bytes as they act on the code units;
      [Str.take] counts code units.
    - JavaScript objects used as maps from an index to a value
      ([fileTypes], [loadingFileTypes]) are [gmap nat _].
    - Code that can raise returns a [completion]; [try]/[catch] is a match
      on it.
    - Built-ins of the language ([JSON.parse], [JSON.stringify], string
      coercion) and of the browser ([fetch], [Headers], [atob]) are
      modelled in the modules [JS], [JSON], [Net] and [Base64]; names of
      the host application that are imported by the component ([decode],
      [WEBUI_BASE_URL], [dev]) are fields of the class [Host], as is the
      room left on the call stack.
    - Numbers are exact decimals, not doubles.  The date library, the
      translations, the styling and the transitions are not embedded. *)

From Stdlib Require Import ZArith Ascii String DecimalString.
From stdpp Require Import base tactics option list gmap strings.

Local Set Warnings "-register-all".
Local Open Scope Z_scope.
Local Open Scope nat_scope.

(** ** JavaScript strings *)

Module Str.

(** [s.startsWith(p)] *)
Fixpoint startsWith (s p : string) {struct p} : bool :=
  match p with
  | EmptyString => true
  | String a p' =>
      match s with
      | EmptyString => false
      | String b s' => Ascii.eqb a b && startsWith s' p'
      end
  end.

(** [s.includes(p)] *)
Fixpoint includes (s p : string) : bool :=
  startsWith s p ||
  match s with
  | EmptyString => false
  | String _ s' => includes s' p
  end.

(** the longest prefix of [s] whose characters all satisfy [f], and the
    rest of [s] *)
Fixpoint span (f : ascii -> bool) (s : string) : string * string :=
  match s with
  | EmptyString => (EmptyString, EmptyString)
  | String c s' =>
      if f c then let '(a, b) := span f s' in (String c a, b)
      else (EmptyString, s)
  end.

(** [s.split(c)] for a one-character separator [c] *)
Fixpoint split (c : ascii) (s : string) : list string :=
  match s with
  | EmptyString => [EmptyString]
  | String d s' =>
      if Ascii.eqb c d then EmptyString :: split c s'
      else match split c s' with
           | p :: ps => String d p :: ps
           | [] => [String d EmptyString]
           end
  end.

(** a byte that continues the code unit begun by an earlier byte *)
Definition continuation (c : ascii) : bool :=
  match c with
  | Ascii _ _ _ _ _ _ false true => true
  | _ => false
  end.

(** [s.substring(0, n)]: the first [n] code units *)
Fixpoint take (n : nat) (s : string) : string :=
  match s with
  | EmptyString => EmptyString
  | String c s' =>
      if continuation c then String c (take n s')
      else match n with
           | O => EmptyString
           | S n' => String c (take n' s')
           end
  end.

(** the string without its first [n] characters *)
Fixpoint drop (n : nat) (s : string) : string :=
  match n, s with
  | S n', String _ s' => drop n' s'
  | _, _ => s
  end.

(** a string is truthy iff it is not empty *)
Definition truthy (s : string) : bool :=
  match s with EmptyString => false | _ => true end.

(** [a || b] on strings *)
Definition or (a b : string) : string := if truthy a then a else b.

(** does the character [c] occur in [s]? *)
Definition mem (c : ascii) (s : string) : bool :=
  existsb (Ascii.eqb c) (list_ascii_of_string s).

End Str.

(** ** The host application *)

(** Names the component imports from the host application, and the room
    on the call stack. *)
Class Host := {
  (** [decode] of the package html-entities *)
  decode : string -> string;
  (** [WEBUI_BASE_URL] of [$lib/constants] *)
  WEBUI_BASE_URL : string;
  (** [dev] of [$app/environment] *)
  dev : bool;
  (** how many nested calls still fit on the call stack, beyond a first
      one, when code of the component starts to run *)
  stack_room : nat;
}.

(** ** URL classifier (lines 88-99 and 126-132) *)

Definition isDataUrl (url : string) : bool := Str.startsWith url "data:".

Definition isAbsoluteUrl (url : string) : bool :=
  Str.startsWith url "http://" || Str.startsWith url "https://".

(** [dataUrl.match(/^data:([^;]+)/)]: the match succeeds iff the string
    starts with [data:] and at least one character other than [;] follows;
    group 1 is the longest run of such characters (the quantifier is
    greedy and nothing follows it in the pattern). *)
Definition match_data_mime (dataUrl : string) : option string :=
  if Str.startsWith dataUrl "data:" then
    match fst (Str.span (fun c => negb (Ascii.eqb c ";")) (Str.drop 5 dataUrl)) with
    | EmptyString => None
    | g => Some g
    end
  else None.

Definition getDataUrlMimeType (dataUrl : string) : string :=
  match match_data_mime dataUrl with
  | Some g => g
  | None => ""
  end.

Definition getFullUrl `{Host} (url : string) : string :=
  if isDataUrl url || isAbsoluteUrl url then url
  else WEBUI_BASE_URL +:+ (if Str.startsWith url "/" then url else "/" +:+ url).

(** ** JavaScript values *)

Module JS.

(** A number is kept as an exact decimal: the value is
    [0.d1 d2 ... dk * 10 ^ point], negated when [negative]; [digits] has
    no leading and no trailing zero, and zero is the empty digit string
    with [point = 0] ([-0] and [0] coerce to the same string, have the
    same truth value and serialize alike, so they are identified).
    Rounding to a double is not modelled. *)
Record number := Number { negative : bool; digits : string; point : Z }.

Inductive value :=
| VNull
| VBool (b : bool)
| VNumber (n : number)
| VString (s : string)
| VArray (items : list value)
| VObject (props : list (string * value)).

(** An exception value; only its [name] is inspected by the component. *)
Record exn := Exn { name : string }.

Inductive completion (A : Type) :=
| Return (a : A)
| Throw (e : exn).
Arguments Return {A} a.
Arguments Throw {A} e.

Definition SyntaxError := Exn "SyntaxError".
Definition TypeError := Exn "TypeError".
Definition RangeError := Exn "RangeError".

Inductive type := TObject | TBoolean | TNumber | TString.

(** [typeof v] *)
Definition typeof (v : value) : type :=
  match v with
  | VNull | VArray _ | VObject _ => TObject
  | VBool _ => TBoolean
  | VNumber _ => TNumber
  | VString _ => TString
  end.

(** the truth value of [v] in a condition *)
Definition truthy (v : value) : bool :=
  match v with
  | VNull => false
  | VBool b => b
  | VNumber n => Str.truthy (digits n)
  | VString s => Str.truthy s
  | VArray _ | VObject _ => true
  end.

Definition zeros (n : nat) : string := string_of_list_ascii (replicate n "0"%char).

Definition decimal (n : Z) : string :=
  DecimalString.NilZero.string_of_uint (N.to_uint (Z.to_N n)).

(** [Number::toString], radix 10 *)
Definition Number_toString (x : number) : string :=
  let s := digits x in
  let k := Z.of_nat (String.length s) in
  let n := point x in
  match s with
  | EmptyString => "0"
  | String d ds =>
      (if negative x then "-" else "") +:+
      (if (k <=? n)%Z && (n <=? 21)%Z then s +:+ zeros (Z.to_nat (n - k))
       else if (0 <? n)%Z && (n <=? 21)%Z then
         Str.take (Z.to_nat n) s +:+ "." +:+ Str.drop (Z.to_nat n) s
       else if (-6 <? n)%Z && (n <=? 0)%Z then
         "0." +:+ zeros (Z.to_nat (- n)) +:+ s
       else
         let e := (n - 1)%Z in
         String d (match ds with EmptyString => "" | _ => "." +:+ ds end)
         +:+ "e" +:+ (if (0 <? e)%Z then "+" else "-") +:+ decimal (Z.abs e))
  end.

(** [ToString(v)], the coercion applied by [String(v)] and by a built-in
    that expects a string; an array is the comma-joined coercion of its
    items, where [null] counts as the empty string. *)
Fixpoint ToString (v : value) : string :=
  match v with
  | VNull => "null"
  | VBool true => "true"
  | VBool false => "false"
  | VNumber n => Number_toString n
  | VString s => s
  | VArray items =>
      String.concat ","
        (map (fun x => match x with VNull => "" | _ => ToString x end) items)
  | VObject _ => "[object Object]"
  end.

End JS.
Export JS.

(** ** The built-in [JSON] object *)

Module JSON.

Local Open Scope char_scope.

Definition is_digit (c : ascii) : bool :=
  (48 <=? N_of_ascii c)%N && (N_of_ascii c <=? 57)%N.

Definition is_letter (c : ascii) : bool :=
  ((65 <=? N_of_ascii c)%N && (N_of_ascii c <=? 90)%N) ||
  ((97 <=? N_of_ascii c)%N && (N_of_ascii c <=? 122)%N).

Definition is_whitespace (c : ascii) : bool :=
  match c with
  | " " | "009" | "010" | "013" => true
  | _ => false
  end.

(** the value of a string of decimal digits *)
Definition digits_value (s : string) : Z :=
  fold_left (fun acc c => (acc * 10 + (Z.of_N (N_of_ascii c) - 48))%Z)
            (list_ascii_of_string s) 0%Z.

(** [s] without its leading zeros, and their number *)
Fixpoint strip_zeros (s : string) : string * nat :=
  match s with
  | String "0" s' => let '(r, n) := strip_zeros s' in (r, S n)
  | _ => (s, O)
  end.

Definition string_rev (s : string) : string :=
  string_of_list_ascii (rev (list_ascii_of_string s)).

(** the number written [int.frac] times ten to the [exp] *)
Definition make_number (neg : bool) (int frac : string) (exp : Z) : number :=
  let '(lead, dropped) := strip_zeros (int +:+ frac) in
  let '(rsig, _) := strip_zeros (string_rev lead) in
  match rsig with
  | EmptyString => Number false "" 0
  | _ => Number neg (string_rev rsig)
           (Z.of_nat (String.length int) - Z.of_nat dropped + exp)
  end.

(** A number of the JSON grammar: an optional minus sign; an integer
    part that is 0 or starts with a digit other than 0; optionally a dot
    and one or more digits; optionally e or E, an optional sign and one
    or more digits.  [parse_exponent] reads what follows the fraction. *)
Definition parse_exponent (neg : bool) (int frac rest : string) : option number :=
  match rest with
  | EmptyString => Some (make_number neg int frac 0)
  | String ("e" | "E") r =>
      let '(eneg, r') :=
        match r with
        | String "+" x => (false, x)
        | String "-" x => (true, x)
        | _ => (false, r)
        end in
      match Str.span is_digit r' with
      | (String d ds, EmptyString) =>
          let e := digits_value (String d ds) in
          Some (make_number neg int frac (if eneg then - e else e))
      | _ => None
      end
  | _ => None
  end.

Definition parse_number (w : string) : option number :=
  let '(neg, r) :=
    match w with
    | String "-" x => (true, x)
    | _ => (false, w)
    end in
  match Str.span is_digit r with
  | (EmptyString, _) => None
  | (String "0" (String _ _), _) => None
  | (int, String "." r') =>
      match Str.span is_digit r' with
      | (EmptyString, _) => None
      | (frac, r'') => parse_exponent neg int frac r''
      end
  | (int, r') => parse_exponent neg int "" r'
  end.

(** a maximal run of letters, digits, signs and dots: a literal name or
    a number *)
Definition parse_word (w : string) : option value :=
  if String.eqb w "null" then Some VNull
  else if String.eqb w "true" then Some (VBool true)
  else if String.eqb w "false" then Some (VBool false)
  else VNumber <$> parse_number w.

(** the value of a hexadecimal digit, in either case *)
Definition hex_value (c : ascii) : option N :=
  let n := N_of_ascii c in
  if is_digit c then Some (n - 48)%N
  else if (97 <=? n)%N && (n <=? 102)%N then Some (n - 87)%N
  else if (65 <=? n)%N && (n <=? 70)%N then Some (n - 55)%N
  else None.

(** the bytes that stand for the code unit [u] *)
Definition fromCharCode (u : N) : list ascii :=
  if (u <? 128)%N then [ascii_of_N u]
  else if (u <? 2048)%N then
    [ascii_of_N (192 + u / 64); ascii_of_N (128 + u mod 64)]
  else
    [ascii_of_N (224 + u / 4096); ascii_of_N (128 + (u / 64) mod 64);
     ascii_of_N (128 + u mod 64)].

(** the six structural characters, and a literal: a name, a number or a
    string *)
Inductive token :=
| TLBrace | TRBrace | TLBracket | TRBracket | TColon | TComma
| TLit (v : value).

(** The scanner is a machine that reads one character at a time; the
    accumulated characters are kept in reverse. *)
(** [SGap]: between two tokens; [SWord]: in a name or a number;
    [SString]: in a string; [SEscape]: after a backslash; [SUnicode s n u]:
    in a [\u] escape with [n] digits to come and the value [u] so far. *)
Inductive scan :=
| SGap
| SWord (w : list ascii)
| SString (s : list ascii)
| SEscape (s : list ascii)
| SUnicode (s : list ascii) (n : nat) (u : N).

Definition is_word_char (c : ascii) : bool :=
  is_digit c || is_letter c ||
  match c with "-" | "+" | "." => true | _ => false end.

(** a character read between two tokens *)
Definition scan_gap (c : ascii) : option (scan * list token) :=
  match c with
  | "{" => Some (SGap, [TLBrace])
  | "}" => Some (SGap, [TRBrace])
  | "[" => Some (SGap, [TLBracket])
  | "]" => Some (SGap, [TRBracket])
  | ":" => Some (SGap, [TColon])
  | "," => Some (SGap, [TComma])
  | "034" => Some (SString [], [])
  | _ =>
      if is_whitespace c then Some (SGap, [])
      else if is_word_char c then Some (SWord [c], [])
      else None
  end.

(** the literal that the characters [w] of a word make up *)
Definition end_word (w : list ascii) : option token :=
  TLit <$> parse_word (string_of_list_ascii (rev w)).

(** one character: the next state and the tokens completed; [None] is a
    syntax error *)
Definition scan_step (st : scan) (c : ascii) : option (scan * list token) :=
  match st with
  | SGap => scan_gap c
  | SWord w =>
      if is_word_char c then Some (SWord (c :: w), [])
      else
        t ← end_word w;
        '(st', ts) ← scan_gap c;
        Some (st', t :: ts)
  | SString s =>
      match c with
      | "034" => Some (SGap, [TLit (VString (string_of_list_ascii (rev s)))])
      | "\" => Some (SEscape s, [])
      | _ => if (N_of_ascii c <? 32)%N then None else Some (SString (c :: s), [])
      end
  | SEscape s =>
      match c with
      | "034" | "\" | "/" => Some (SString (c :: s), [])
      | "b" => Some (SString ("008" :: s), [])
      | "f" => Some (SString ("012" :: s), [])
      | "n" => Some (SString ("010" :: s), [])
      | "r" => Some (SString ("013" :: s), [])
      | "t" => Some (SString ("009" :: s), [])
      | "u" => Some (SUnicode s 4 0%N, [])
      | _ => None
      end
  | SUnicode s n u =>
      h ← hex_value c;
      let u' := (u * 16 + h)%N in
      match n with
      | 1 => Some (SString (rev (fromCharCode u') ++ s), [])
      | _ => Some (SUnicode s (pred n) u', [])
      end
  end.

Fixpoint scan_all (st : scan) (cs : list ascii) : option (list token) :=
  match cs with
  | [] =>
      match st with
      | SGap => Some []
      | SWord w => t ← end_word w; Some [t]
      | _ => None
      end
  | c :: cs' =>
      '(st', ts) ← scan_step st c;
      rest ← scan_all st' cs';
      Some (ts ++ rest)
  end.

Definition tokens (text : string) : option (list token) :=
  scan_all SGap (list_ascii_of_string text).

(** A key that is an array index: the canonical decimal form of an
    integer from 0 to 2^32 - 2. *)
Definition array_index (k : string) : option N :=
  match k with
  | EmptyString => None
  | String "0" (String _ _) => None
  | _ =>
      if forallb is_digit (list_ascii_of_string k) && (String.length k <=? 10)%nat
      then let n := Z.to_N (digits_value k) in
           if (n <? 4294967295)%N then Some n else None
      else None
  end.

(** [o[k] = v] on the ordered list of the own properties of an object:
    an existing key keeps its place; a new array index goes among the
    array indices, which come first in ascending order; any other new key
    goes last. *)
Fixpoint set_property (props : list (string * value)) (k : string) (v : value)
  : list (string * value) :=
  match props with
  | [] => [(k, v)]
  | (k', v') :: rest =>
      if String.eqb k k' then (k, v) :: rest
      else if existsb (fun p => String.eqb k (fst p)) rest
      then (k', v') :: set_property rest k v
      else match array_index k, array_index k' with
           | Some i, Some j =>
               if (i <? j)%N then (k, v) :: props
               else (k', v') :: set_property rest k v
           | Some _, None => (k, v) :: props
           | None, _ => (k', v') :: set_property rest k v
           end
  end.

(** The parser is a pushdown machine over the tokens. A frame is a
    container under construction: the items of an array read so far (in
    reverse), or the properties of an object read so far and the key
    whose value is being read. *)
Inductive frame :=
| FArray (items : list value)
| FObject (props : list (string * value)) (key : string).

(** What the parser waits for: a value; the first item of an array or
    its end; the first key of an object or its end; a key; the colon after
    a key; and, a value [v] being complete, what may follow it. *)
Inductive expect :=
| EValue
| EFirstItem
| EFirstKey
| EKey (props : list (string * value))
| EColon (props : list (string * value)) (key : string)
| EDone (v : value).

(** the token [t] where a value must start *)
Definition parse_value (t : token) (stack : list frame)
  : option (expect * list frame) :=
  match t with
  | TLit v => Some (EDone v, stack)
  | TLBracket => Some (EFirstItem, stack)
  | TLBrace => Some (EFirstKey, stack)
  | _ => None
  end.

Definition parse_step (e : expect) (stack : list frame) (t : token)
  : option (expect * list frame) :=
  match e with
  | EValue => parse_value t stack
  | EFirstItem =>
      match t with
      | TRBracket => Some (EDone (VArray []), stack)
      | _ => parse_value t (FArray [] :: stack)
      end
  | EFirstKey =>
      match t with
      | TRBrace => Some (EDone (VObject []), stack)
      | TLit (VString k) => Some (EColon [] k, stack)
      | _ => None
      end
  | EKey props =>
      match t with
      | TLit (VString k) => Some (EColon props k, stack)
      | _ => None
      end
  | EColon props k =>
      match t with
      | TColon => Some (EValue, FObject props k :: stack)
      | _ => None
      end
  | EDone v =>
      match stack, t with
      | FArray items :: stack', TComma => Some (EValue, FArray (v :: items) :: stack')
      | FArray items :: stack', TRBracket =>
          Some (EDone (VArray (rev (v :: items))), stack')
      | FObject props k :: stack', TComma => Some (EKey (set_property props k v), stack')
      | FObject props k :: stack', TRBrace =>
          Some (EDone (VObject (set_property props k v)), stack')
      | _, _ => None
      end
  end.

(** the text is one value and nothing more *)
Fixpoint parse_all (e : expect) (stack : list frame) (ts : list token)
  : option value :=
  match ts with
  | [] =>
      match e, stack with
      | EDone v, [] => Some v
      | _, _ => None
      end
  | t :: ts' =>
      '(e', stack') ← parse_step e stack t;
      parse_all e' stack' ts'
  end.

(** a hexadecimal digit in lower case *)
Definition hex_digit (n : N) : ascii :=
  if (n <? 10)%N then ascii_of_N (48 + n) else ascii_of_N (87 + n).

(** the escape [\uXXXX] of the code unit [u] *)
Definition unicode_escape (u : N) : string :=
  "\u" +:+
  string_of_list_ascii
    [hex_digit (u / 4096); hex_digit ((u / 256) mod 16);
     hex_digit ((u / 16) mod 16); hex_digit (u mod 16)].

Definition quote_char (c : ascii) : string :=
  match c with
  | "008" => "\b"
  | "009" => "\t"
  | "010" => "\n"
  | "012" => "\f"
  | "013" => "\r"
  | "034" => String "\" (String "034" "")
  | "\" => "\\"
  | _ => if (N_of_ascii c <? 32)%N then unicode_escape (N_of_ascii c)
         else String c ""
  end.

(** the second byte of a leading, resp. trailing, surrogate whose first
    byte is 237 *)
Definition is_lead (b : ascii) : bool :=
  (160 <=? N_of_ascii b)%N && (N_of_ascii b <=? 175)%N.
Definition is_trail (b : ascii) : bool :=
  (176 <=? N_of_ascii b)%N && (N_of_ascii b <=? 191)%N.

(** the surrogate whose bytes are 237, [b] and [c] *)
Definition surrogate (b c : ascii) : N :=
  (53248 + (N_of_ascii b - 128) * 64 + (N_of_ascii c - 128))%N.

(** The characters of a quoted string: the two-character escapes, the
    [\u] escape for the other control characters and for a surrogate
    that is not part of a pair, every other character as it is. *)
Fixpoint quote_chars (cs : list ascii) : string :=
  match cs with
  | [] => ""
  | c :: cs' =>
      match c, cs' with
      | "237", b :: d :: rest =>
          if is_lead b then
            match rest with
            | "237" :: b' :: d' :: rest' =>
                if is_trail b'
                then string_of_list_ascii [c; b; d; "237"; b'; d'] +:+ quote_chars rest'
                else unicode_escape (surrogate b d) +:+ quote_chars rest
            | _ => unicode_escape (surrogate b d) +:+ quote_chars rest
            end
          else if is_trail b then unicode_escape (surrogate b d) +:+ quote_chars rest
          else quote_char c +:+ quote_chars cs'
      | _, _ => quote_char c +:+ quote_chars cs'
      end
  end.

(** [QuoteJSONString] *)
Definition quote (s : string) : string :=
  String "034" (quote_chars (list_ascii_of_string s) +:+ String "034" "").

Definition newline : string := String "010" "".

(** the text of a non-empty array or object whose parts are [parts] *)
Definition wrap (opening closing gap indent : string) (parts : list string) : string :=
  match gap with
  | EmptyString => opening +:+ String.concat "," parts +:+ closing
  | _ =>
      let inner := indent +:+ gap in
      opening +:+ newline +:+ inner +:+
      String.concat ("," +:+ newline +:+ inner) parts +:+
      newline +:+ indent +:+ closing
  end.

(** [SerializeJSONProperty] with the indentation unit [gap], at the
    current indentation [indent] *)
Fixpoint serialize (gap indent : string) (v : value) : string :=
  match v with
  | VNull => "null"
  | VBool true => "true"
  | VBool false => "false"
  | VNumber n => Number_toString n
  | VString s => quote s
  | VArray [] => "[]"
  | VArray items =>
      wrap "[" "]" gap indent (map (serialize gap (indent +:+ gap)) items)
  | VObject [] => "{}"
  | VObject props =>
      wrap "{" "}" gap indent
        (map (fun p => match p with
                       | (k, x) =>
                           quote k +:+ ":" +:+
                           (match gap with EmptyString => "" | _ => " " end) +:+
                           serialize gap (indent +:+ gap) x
                       end) props)
  end.

(** [JSON.stringify(v)] and [JSON.stringify(v, null, 2)] *)
Definition stringify (v : value) : string := serialize "" "" v.
Definition stringify2 (v : value) : string := serialize "  " "" v.

(** how deep the arrays and objects of [v] are nested *)
Fixpoint levels (v : value) : nat :=
  match v with
  | VArray items => S (list_max (map levels items))
  | VObject props => S (list_max (map (fun p => levels (snd p)) props))
  | _ => 0
  end.

(** [JSON.stringify(v, null, 2)] called when the stack has room for
    [room] calls: the serializer takes one for itself and one for every
    level of nesting, and raises a [RangeError] when they do not fit *)
Definition stringify2_in (room : nat) (v : value) : completion string :=
  if decide (levels v < room) then Return (stringify2 v) else Throw RangeError.

(** [JSON.parse(text)] for a string [text]; [None] is a [SyntaxError]. *)
Definition parse_text (text : string) : option value :=
  ts ← tokens text; parse_all EValue [] ts.

(** [JSON.parse(v)]: the argument is coerced to a string first. *)
Definition parse (v : value) : completion value :=
  match parse_text (ToString v) with
  | Some r => Return r
  | None => Throw SyntaxError
  end.

End JSON.

(** ** Recursive JSON normalizer (lines 63-85)

    The recursion of [parseJSONString] has no base case of its own: it
    ends when [JSON.parse] raises, or when the call stack is exhausted and
    the engine raises a [RangeError] inside the innermost [try].  The
    argument [stack] is the number of calls the stack still has room for;
    a call made when there is none raises.  In [formatJSONString] the
    serialization of a value nested too deeply for the stack raises too,
    and the [catch] of lines 81-84 gives the argument back. *)

Fixpoint parseJSONString (stack : nat) (str : value) : completion value :=
  match stack with
  | O => Throw RangeError
  | S room =>
      match JSON.parse str with
      | Throw _ => Return str
      | Return parsed =>
          match parseJSONString room parsed with
          | Return r => Return r
          | Throw _ => Return str
          end
      end
  end.

Definition formatJSONString (stack : nat) (str : value) : completion value :=
  match stack with
  | O => Throw RangeError
  | S room =>
      match parseJSONString room str with
      | Return parsed =>
          match typeof parsed with
          | TObject =>
              match JSON.stringify2_in room parsed with
              | Return text => Return (VString text)
              | Throw _ => Return str
              end
          | _ => Return (VString (JSON.stringify (VString (ToString parsed))))
          end
      | Throw _ => Return str
      end
  end.

(** ** The browser's [fetch] *)

Module Net.

(** the options the component passes, and the address *)
Record request := Request {
  url : string;
  method : string;
  credentials : option string;
}.

(** the part of a response the component reads *)
Record response := Response { headers : list (string * string) }.

(** how the promise returned by [fetch] settles *)
Inductive outcome :=
| Fulfilled (r : response)
| Rejected (e : exn).

Definition lower (c : ascii) : ascii :=
  let n := N_of_ascii c in
  if (65 <=? n)%N && (n <=? 90)%N then ascii_of_N (n + 32) else c.

Fixpoint lowercase (s : string) : string :=
  match s with
  | EmptyString => EmptyString
  | String c s' => String (lower c) (lowercase s')
  end.

(** [headers.get(name)]: names compare without regard to case; the
    values of the headers of that name are joined by a comma and a
    space; [None] is [null]. *)
Definition get (h : list (string * string)) (name : string) : option string :=
  match filter (fun p => lowercase (fst p) = lowercase name) h with
  | [] => None
  | found => Some (String.concat ", " (map snd found))
  end.

End Net.

(** ** What the component does to the outside *)

Inductive effect :=
| Fetch (req : Net.request)
| Abort (req : Net.request)
| ConsoleError (url : string) (error : exn)
| OnChange (open : bool).

(** the requests among the effects *)
Definition requests (effs : list effect) : list Net.request :=
  omap (fun e => match e with Fetch req => Some req | _ => None end) effs.

(** A call of an [async] function that awaits the promise of one request
    at most: the effects of the call up to the [await], and, given how
    that promise settles, the completion of the function and the effects
    that follow.  A function that awaits nothing ignores the outcome. *)
Record async (A : Type) := Async {
  called : list effect;
  settled : Net.outcome -> completion A * list effect;
}.
Arguments Async {A} called settled.
Arguments called {A} a.
Arguments settled {A} a o.

(** ** Content-type prober (lines 101-124 and 134-147) *)

Section Prober.
Context `{Host}.

(** lines 103-111: the request made for [url] *)
Definition probe_request (url : string) : Net.request :=
  {| Net.url := getFullUrl url;
     Net.method := "GET";
     Net.credentials := if dev then Some "include" else None |}.

(** lines 106-116, the rest of the [try] block once the promise of
    [fetch] has settled: a rejection is raised by the [await] *)
Definition probe_try (url : string) (o : Net.outcome)
  : completion string * list effect :=
  match o with
  | Net.Fulfilled response =>
      (Return (Str.or (default "" (Net.get (Net.headers response) "content-type")) ""),
       [Abort (probe_request url)])
  | Net.Rejected error => (Throw error, [])
  end.

Definition getContentTypeFromServer (url : string) : async string :=
  {| called := [Fetch (probe_request url)];
     settled o :=
       match probe_try url o with
       | (Return r, effs) => (Return r, effs)
       | (Throw error, effs) =>
           (Return "",
            effs ++ (if decide (name error = "AbortError") then []
                     else [ConsoleError url error]))
       end |}.

(** [isDataUrl(file)] for an item of any type: only a string has the
    method [startsWith] *)
Definition isDataUrl_item (file : value) : completion bool :=
  match file with
  | VString url => Return (isDataUrl url)
  | _ => Throw TypeError
  end.

(** [determineFileType(file)].  Line 136 raises for an item that is not
    a string, so the test [typeof file === 'string'] of line 141 holds
    whenever it is reached and only the truth value of the string
    remains. *)
Definition determineFileType (file : value) : async string :=
  match file with
  | VString url =>
      if isDataUrl url then Async [] (fun _ => (Return (getDataUrlMimeType url), []))
      else if Str.truthy url then getContentTypeFromServer url
      else Async [] (fun _ => (Return "", []))
  | _ => Async [] (fun _ => (Throw TypeError, []))
  end.

End Prober.

(** ** Attachment resolution sequencer (lines 149-172) *)

(** the two variables [fileTypes] and [loadingFileTypes] *)
Record ResolutionState := Resolution {
  fileTypes : gmap nat string;
  loadingFileTypes : gmap nat bool;
}.

(** A call of [updateFileTypes] suspended at the [await] of line 165 for
    the item of index [i]: its arguments and local variables. *)
Record Pass := {
  files : list value;
  i : nat;
  newFileTypes : gmap nat string;
  newLoadingStates : gmap nat bool;
}.

Inductive progress :=
| Awaiting (p : Pass)
| Completed
| Failed (e : exn).

Section Sequencer.
Context `{Host}.

(** From the loop test of line 158 to the next suspension: lines 159-165
    when an item is left, lines 169-170 when none is.  The spread of
    line 163 is the union in which [newLoadingStates] wins. *)
Definition iterate (files : list value) (i : nat)
    (newFileTypes : gmap nat string) (newLoadingStates : gmap nat bool)
    (st : ResolutionState) : ResolutionState * progress * list effect :=
  match files !! i with
  | None => (Resolution newFileTypes newLoadingStates, Completed, [])
  | Some file =>
      match isDataUrl_item file with
      | Throw e => (st, Failed e, [])
      | Return true =>
          (st, Awaiting (Build_Pass files i newFileTypes newLoadingStates),
           called (determineFileType file))
      | Return false =>
          let newLoadingStates := <[i := true]> newLoadingStates in
          (Resolution (fileTypes st) (newLoadingStates ∪ loadingFileTypes st),
           Awaiting (Build_Pass files i newFileTypes newLoadingStates),
           called (determineFileType file))
      end
  end.

(** [updateFileTypes(files)] up to its first suspension.  An object that
    is not an array has no [length] unless [length] is one of its keys,
    and then the loop test fails at once; an object that has that key is
    outside this embedding. *)
Definition updateFileTypes (files : value) (st : ResolutionState)
  : ResolutionState * progress * list effect :=
  match files with
  | VArray items => iterate items 0 ∅ ∅ st
  | VObject _ => iterate [] 0 ∅ ∅ st
  | _ => (st, Completed, [])
  end.

(** The promise awaited by [p] settles: the rest of line 165, line 166,
    [i++], and on to the next suspension.  A suspended call has its item
    (see [pass_wf]), so the first case does not arise. *)
Definition resume (p : Pass) (o : Net.outcome) (st : ResolutionState)
  : ResolutionState * progress * list effect :=
  match files p !! i p with
  | None => (st, Completed, [])
  | Some file =>
      match settled (determineFileType file) o with
      | (Throw e, effs) => (st, Failed e, effs)
      | (Return r, effs) =>
          let '(st', pr, effs') :=
            iterate (files p) (S (i p))
                    (<[i p := r]> (newFileTypes p))
                    (<[i p := false]> (newLoadingStates p)) st in
          (st', pr, effs ++ effs')
      end
  end.

(** The successive values of the resolution state while one call runs
    with no other call in flight: [st] itself, then the state after
    each settlement in [os].  Every step assigns [loadingFileTypes] at
    most once, so these are all the values that variable takes. *)
Fixpoint pass_states (pr : progress) (st : ResolutionState)
    (os : list Net.outcome) : list ResolutionState :=
  st ::
  match pr, os with
  | Awaiting p, o :: os' =>
      let '(st', pr', _) := resume p o st in pass_states pr' st' os'
  | _, _ => []
  end.

Definition updateFileTypes_states (files : value) (st : ResolutionState)
    (os : list Net.outcome) : list ResolutionState :=
  let '(st', pr, _) := updateFileTypes files st in
  st :: pass_states pr st' os.

(** the progress of the call after the settlements [os] *)
Fixpoint pass_progress (pr : progress) (st : ResolutionState)
    (os : list Net.outcome) : progress :=
  match pr, os with
  | Awaiting p, o :: os' =>
      let '(st', pr', _) := resume p o st in pass_progress pr' st' os'
  | _, _ => pr
  end.

Definition updateFileTypes_progress (files : value) (st : ResolutionState)
    (os : list Net.outcome) : progress :=
  let '(st', pr, _) := updateFileTypes files st in
  pass_progress pr st' os.

(** what the call does at each step: at the settlements [os] in turn *)
Fixpoint pass_does (pr : progress) (st : ResolutionState)
    (os : list Net.outcome) : list (list effect) :=
  match pr, os with
  | Awaiting p, o :: os' =>
      let '(st', pr', effs) := resume p o st in effs :: pass_does pr' st' os'
  | _, _ => []
  end.

(** the same from the call on: the effects of the call come first *)
Definition updateFileTypes_does (files : value) (st : ResolutionState)
    (os : list Net.outcome) : list (list effect) :=
  let '(st', pr, effs) := updateFileTypes files st in
  effs :: pass_does pr st' os.

End Sequencer.

(** line 334: [loadingFileTypes[idx] || false] *)
Definition isLoading (st : ResolutionState) (idx : nat) : bool :=
  default false (loadingFileTypes st !! idx).

(** line 333: [fileTypes[idx] || ''] *)
Definition contentType (st : ResolutionState) (idx : nat) : string :=
  Str.or (default "" (fileTypes st !! idx)) "".

(** ** Presentation dispatcher (lines 332-405) *)

(** what the block renders for one item *)
Inductive rendering :=
| Spinner
| Image (src : string)
| Audio (src : string)
| Video (src : string)
| PdfFrame (src : string)
| TextContent (contentType : string) (base64 : string)
| TextLink (href : string) (contentType : string)
| FileContent (label : string) (preview : string)
| FileLink (href : string) (label : string)
| Nothing.

Section Dispatcher.
Context `{Host}.

(** lines 335-404, the chain of [{#if}] and [{:else if}] for an item
    that is a string; [base64] of [TextContent] is the argument of
    [atob], [preview] of [FileContent] the text before the dots *)
Definition dispatch (file contentType : string) (isLoading : bool) : rendering :=
  let displayUrl := if isDataUrl file then file else getFullUrl file in
  if isLoading then Spinner
  else if Str.startsWith contentType "image/" then Image displayUrl
  else if Str.startsWith contentType "audio/" then Audio displayUrl
  else if Str.startsWith contentType "video/" then Video displayUrl
  else if Str.includes contentType "pdf" then PdfFrame displayUrl
  else if Str.startsWith contentType "text/" || Str.includes contentType "json"
          || Str.includes contentType "xml" then
    if isDataUrl file
    then TextContent contentType (Str.or (default "" (Str.split "," file !! 1)) "")
    else TextLink displayUrl contentType
  else if Str.truthy file then
    if isDataUrl file
    then FileContent (Str.or contentType "Unknown type") (Str.take 100 file)
    else FileLink displayUrl (Str.or contentType "Unknown type")
  else Nothing.

(** lines 333-335 and the chain, for an item of any type: line 335 calls
    [isDataUrl(file)].  The result is the branch taken, with the
    arguments of its element; [mount] below evaluates them. *)
Definition render_item (st : ResolutionState) (idx : nat) (file : value)
  : completion rendering :=
  match file with
  | VString url => Return (dispatch url (contentType st idx) (isLoading st idx))
  | _ => Throw TypeError
  end.

End Dispatcher.

(** [atob] of the browser: the forgiving decoding of base64.  ASCII
    whitespace is dropped; one or two signs [=] at the end of a text
    whose length is a multiple of four are dropped; a text whose length
    is then one more than a multiple of four, or that has a character
    outside the alphabet, is refused with an [InvalidCharacterError];
    every four characters give three bytes, two characters at the end
    give one byte and three give two.  The result has one code unit for
    each byte. *)
Module Base64.

Definition InvalidCharacterError := Exn "InvalidCharacterError".

Definition is_space (c : ascii) : bool :=
  let n := N_of_ascii c in
  (n =? 9)%N || (n =? 10)%N || (n =? 12)%N || (n =? 13)%N || (n =? 32)%N.

(** the value of a character of the alphabet *)
Definition sextet (c : ascii) : option N :=
  let n := N_of_ascii c in
  if (65 <=? n)%N && (n <=? 90)%N then Some (n - 65)%N
  else if (97 <=? n)%N && (n <=? 122)%N then Some (n - 71)%N
  else if (48 <=? n)%N && (n <=? 57)%N then Some (n + 4)%N
  else if (n =? 43)%N then Some 62%N
  else if (n =? 47)%N then Some 63%N
  else None.

Definition strip_padding (cs : list ascii) : list ascii :=
  if decide (length cs mod 4 = 0) then
    match reverse cs with
    | a :: b :: rest =>
        if Ascii.eqb a "=" then
          if Ascii.eqb b "=" then reverse rest else reverse (b :: rest)
        else cs
    | _ => cs
    end
  else cs.

Fixpoint bytes (vs : list N) : list N :=
  match vs with
  | a :: b :: c :: d :: rest =>
      (a * 4 + b / 16)%N :: ((b mod 16) * 16 + c / 4)%N :: ((c mod 4) * 64 + d)%N
      :: bytes rest
  | [a; b; c] => [(a * 4 + b / 16)%N; ((b mod 16) * 16 + c / 4)%N]
  | [a; b] => [(a * 4 + b / 16)%N]
  | _ => []
  end.

Definition atob (data : string) : completion string :=
  let cs := strip_padding (List.filter (fun c => negb (is_space c))
                             (list_ascii_of_string data)) in
  if decide (length cs mod 4 = 1) then Throw InvalidCharacterError
  else
    match mapM sextet cs with
    | Some vs =>
        Return (string_of_list_ascii (flat_map JSON.fromCharCode (bytes vs)))
    | None => Throw InvalidCharacterError
    end.

End Base64.

(** what stands in the page for an item: the text that [atob] gives for
    an inline text, and every other branch as the dispatcher has it *)
Inductive attachment :=
| DecodedText (contentType text : string)
| Shown (r : rendering).

(** the element of the branch taken is built: line 366 calls [atob],
    which raises for a text that is not base64 *)
Definition mount (r : rendering) : completion attachment :=
  match r with
  | TextContent contentType base64 =>
      match Base64.atob base64 with
      | Return text => Return (DecodedText contentType text)
      | Throw e => Throw e
      end
  | _ => Return (Shown r)
  end.

(** the rendering branches of the dispatcher *)
Inductive branch :=
| LoadingPlaceholder
| ImageRenderer
| AudioPlayer
| VideoPlayer
| DocumentViewer
| TextPreview
| GenericFallback
| RendersNothing.

Definition branch_of (r : rendering) : branch :=
  match r with
  | Spinner => LoadingPlaceholder
  | Image _ => ImageRenderer
  | Audio _ => AudioPlayer
  | Video _ => VideoPlayer
  | PdfFrame _ => DocumentViewer
  | TextContent _ _ | TextLink _ _ => TextPreview
  | FileContent _ _ | FileLink _ _ => GenericFallback
  | Nothing => RendersNothing
  end.

(** The precedence as the specification words it: each rule applies when
    its own condition holds and none of the rules before it applies. *)
Inductive selects (ref mimeType : string) (isLoading : bool) : branch -> Prop :=
| select_loading :
    isLoading = true ->
    selects ref mimeType isLoading LoadingPlaceholder
| select_image :
    isLoading = false ->
    Str.startsWith mimeType "image/" = true ->
    selects ref mimeType isLoading ImageRenderer
| select_audio :
    isLoading = false ->
    Str.startsWith mimeType "image/" = false ->
    Str.startsWith mimeType "audio/" = true ->
    selects ref mimeType isLoading AudioPlayer
| select_video :
    isLoading = false ->
    Str.startsWith mimeType "image/" = false ->
    Str.startsWith mimeType "audio/" = false ->
    Str.startsWith mimeType "video/" = true ->
    selects ref mimeType isLoading VideoPlayer
| select_document :
    isLoading = false ->
    Str.startsWith mimeType "image/" = false ->
    Str.startsWith mimeType "audio/" = false ->
    Str.startsWith mimeType "video/" = false ->
    Str.includes mimeType "pdf" = true ->
    selects ref mimeType isLoading DocumentViewer
| select_text :
    isLoading = false ->
    Str.startsWith mimeType "image/" = false ->
    Str.startsWith mimeType "audio/" = false ->
    Str.startsWith mimeType "video/" = false ->
    Str.includes mimeType "pdf" = false ->
    Str.startsWith mimeType "text/" = true \/ Str.includes mimeType "json" = true
      \/ Str.includes mimeType "xml" = true ->
    selects ref mimeType isLoading TextPreview
| select_generic :
    isLoading = false ->
    Str.startsWith mimeType "image/" = false ->
    Str.startsWith mimeType "audio/" = false ->
    Str.startsWith mimeType "video/" = false ->
    Str.includes mimeType "pdf" = false ->
    Str.startsWith mimeType "text/" = false ->
    Str.includes mimeType "json" = false ->
    Str.includes mimeType "xml" = false ->
    ref <> "" ->
    selects ref mimeType isLoading GenericFallback
| select_nothing :
    isLoading = false ->
    Str.startsWith mimeType "image/" = false ->
    Str.startsWith mimeType "audio/" = false ->
    Str.startsWith mimeType "video/" = false ->
    Str.includes mimeType "pdf" = false ->
    Str.startsWith mimeType "text/" = false ->
    Str.includes mimeType "json" = false ->
    Str.includes mimeType "xml" = false ->
    ref = "" ->
    selects ref mimeType isLoading RendersNothing.

(** ** The component: props, variables and reactive statements *)

(** the keys of [attributes] the component reads; an absent key is
    [None] *)
Module Attr.
Record t := Make {
  type : option string;
  done : option string;
  duration : option string;
  name : option string;
  id : option string;
  arguments : option string;
  result : option string;
  files : option string;
}.
End Attr.

(** The props and variables that change while the component lives
    ([open], [disabled], [attributes], and the resolution state), the
    suspended calls of [updateFileTypes], each under the number of calls
    made before it, and the number of calls made so far. *)
Record Component := {
  open : bool;
  disabled : bool;
  attributes : option Attr.t;
  resolution : ResolutionState;
  pending : gmap nat Pass;
  started : nat;
}.

(** what the parent assigns in one update of the panel: the props it
    sets, all before the reactive statements run again; [set_onChange]
    tells whether the prop [onChange] is among them *)
Record Props := {
  set_open : option bool;
  set_disabled : option bool;
  set_attributes : option (option Attr.t);
  set_onChange : bool;
}.

Inductive event :=
| PointerUp
| SetOpen (b : bool)
| SetDisabled (b : bool)
| SetAttributes (a : option Attr.t)
| Settled (pass : nat) (o : Net.outcome)
| SetProps (props : Props).

Section Runtime.
Context `{Host}.

(** [parseJSONString(str)] called from the top level of the component;
    such a call returns (see [parseJSONString_returns]), and the
    [catch] gives [str] back in any case. *)
Definition normalize (str : value) : value :=
  match parseJSONString (S stack_room) str with
  | Return r => r
  | Throw _ => str
  end.

(** [formatJSONString(str)] called from the markup *)
Definition format (str : value) : value :=
  match formatJSONString (S stack_room) str with
  | Return r => r
  | Throw _ => str
  end.

(** [parseJSONString(decode(attributes?.files ?? ''))] *)
Definition decoded_files (attributes : option Attr.t) : value :=
  normalize (VString (decode (default "" (attributes ≫= Attr.files)))).

(** The reactive statement of lines 175-178: the argument with which it
    calls [updateFileTypes], or [None] when it makes no call. *)
Definition files_statement (attributes : option Attr.t) : option value :=
  if decide (attributes ≫= Attr.done = Some "true") then
    if truthy (decoded_files attributes) then Some (decoded_files attributes)
    else None
  else None.

Definition with_resolution (c : Component) (st : ResolutionState)
    (pending : gmap nat Pass) (started : nat) : Component :=
  {| open := open c; disabled := disabled c; attributes := attributes c;
     resolution := st; pending := pending; started := started |}.

(** a call of [updateFileTypes(files)] *)
Definition call_updateFileTypes (files : value) (c : Component)
  : Component * list effect :=
  let '(st, pr, effs) := updateFileTypes files (resolution c) in
  (with_resolution c st
     (match pr with
      | Awaiting p => <[started c := p]> (pending c)
      | _ => pending c
      end)
     (S (started c)),
   effs).

(** the reactive statement of lines 175-178 runs *)
Definition run_files_statement (c : Component) : Component * list effect :=
  match files_statement (attributes c) with
  | Some files => call_updateFileTypes files c
  | None => (c, [])
  end.

(** Creation of the component with the given props: the script runs,
    then every reactive statement runs once, in the order of the source
    ([onChange(open)] of line 59, then lines 175-178). *)
Definition init (open disabled : bool) (attributes : option Attr.t)
  : Component * list effect :=
  let c := {| open := open; disabled := disabled; attributes := attributes;
              resolution := Resolution ∅ ∅; pending := ∅; started := 0 |} in
  let '(c', effs) := run_files_statement c in
  (c', OnChange open :: effs).

(** One event and the update that follows it.  An assignment marks a
    variable as changed when the new value differs from the old one or
    the old one is an object or a function; a reactive statement runs
    again when a variable it reads is marked: [onChange(open)] reads
    [open] and [onChange], lines 175-178 read [attributes].  The handler
    of [pointerup] is the one of lines 187-191 and 262-266.  [SetOpen],
    [SetDisabled] and [SetAttributes] are updates in which the parent
    assigns one prop; [SetProps] is an update in which it assigns any of
    the props, the callback [onChange] among them: the statements then
    run once, in the order of the source. *)
Definition step (c : Component) (e : event) : Component * list effect :=
  match e with
  | PointerUp =>
      if disabled c then (c, [])
      else
        ({| open := negb (open c); disabled := disabled c;
            attributes := attributes c; resolution := resolution c;
            pending := pending c; started := started c |},
         [OnChange (negb (open c))])
  | SetOpen b =>
      if decide (b = open c) then (c, [])
      else
        ({| open := b; disabled := disabled c;
            attributes := attributes c; resolution := resolution c;
            pending := pending c; started := started c |},
         [OnChange b])
  | SetDisabled b =>
      ({| open := open c; disabled := b;
          attributes := attributes c; resolution := resolution c;
          pending := pending c; started := started c |}, [])
  | SetAttributes a =>
      match a, attributes c with
      | None, None => (c, [])
      | _, _ =>
          run_files_statement
            {| open := open c; disabled := disabled c;
               attributes := a; resolution := resolution c;
               pending := pending c; started := started c |}
      end
  | Settled pass o =>
      match pending c !! pass with
      | None => (c, [])
      | Some p =>
          let '(st, pr, effs) := resume p o (resolution c) in
          (with_resolution c st
             (match pr with
              | Awaiting p' => <[pass := p']> (pending c)
              | _ => delete pass (pending c)
              end)
             (started c),
           effs)
      end
  | SetProps props =>
      let open' := default (open c) (set_open props) in
      let c' :=
        {| open := open';
           disabled := default (disabled c) (set_disabled props);
           attributes := default (attributes c) (set_attributes props);
           resolution := resolution c; pending := pending c;
           started := started c |} in
      let notify :=
        if set_onChange props || negb (Bool.eqb open' (open c))
        then [OnChange open'] else [] in
      let '(c'', effs) :=
        match set_attributes props with
        | Some a =>
            match a, attributes c with
            | None, None => (c', [])
            | _, _ => run_files_statement c'
            end
        | None => (c', [])
        end in
      (c'', notify ++ effs)
  end.

(** the states the component goes through, and everything it does *)
Fixpoint run (c : Component) (es : list event) : Component * list effect :=
  match es with
  | [] => (c, [])
  | e :: es' =>
      let '(c', effs) := step c e in
      let '(c'', effs') := run c' es' in
      (c'', effs ++ effs')
  end.

(** the values of the resolution state while the events [es] happen *)
Fixpoint states (c : Component) (es : list event) : list ResolutionState :=
  resolution c ::
  match es with
  | [] => []
  | e :: es' => states (step c e).1 es'
  end.

End Runtime.

(** [c] with [attributes] replaced *)
Definition with_attributes (c : Component) (a : option Attr.t) : Component :=
  {| open := open c; disabled := disabled c; attributes := a;
     resolution := resolution c; pending := pending c; started := started c |}.

(** ** The normalizer as the specification words it *)

(** [unwraps n v w]: parsing succeeds [n] times in a row from [v], and
    gives [w] at the end. *)
Inductive unwraps : nat -> value -> value -> Prop :=
| unwraps_here v : unwraps 0 v v
| unwraps_parse n v u w :
    JSON.parse v = Return u -> unwraps n u w -> unwraps (S n) v w.

(** an object or a list *)
Definition structured (x : value) : Prop :=
  match x with
  | VArray _ | VObject _ => True
  | _ => False
  end.

(** [x] comes back from parsing its serialization, the one with the
    indentation that [formatJSONString] asks for *)
Definition round_trips (x : value) : Prop :=
  JSON.parse (VString (JSON.stringify2 x)) = Return x.

(** ** The loading flags as the specification words them *)

Definition none_loading (st : ResolutionState) : Prop :=
  forall idx : nat, isLoading st idx = false.

Definition at_most_one_loading (st : ResolutionState) : Prop :=
  forall idx idx' : nat,
    isLoading st idx = true -> isLoading st idx' = true -> idx = idx'.

(** the item of index [n] is loading and no other is *)
Definition only_loading (n : nat) (st : ResolutionState) : Prop :=
  forall idx : nat, isLoading st idx = true <-> idx = n.

(** a list of references as the value handed to [updateFileTypes] *)
Definition references (refs : list string) : value := VArray (VString <$> refs).

(** ** One call of [updateFileTypes] on a list of references *)

(** the item of index [k] of [refs] is a remote reference *)
Definition remote_at (refs : list string) (k : nat) : Prop :=
  exists ref, refs !! k = Some ref /\ isDataUrl ref = false.

(** What holds of a call on [refs] suspended beside the state [st], when
    the state was [st0] at the call: the private flags are raised at the
    awaited index at most, and there only for a remote reference; whatever
    is loading is a remote reference or was loading in [st0] already. *)
Record pass_inv (refs : list string) (st0 : ResolutionState)
    (p : Pass) (st : ResolutionState) : Prop := {
  inv_files : files p = VString <$> refs;
  inv_index : i p < length refs;
  inv_private : forall k, newLoadingStates p !! k = Some true ->
                          k = i p /\ remote_at refs k;
  inv_state : forall k, isLoading st k = true ->
                        remote_at refs k \/ isLoading st0 k = true;
}.

Definition progress_inv (refs : list string) (st0 : ResolutionState)
    (pr : progress) (st : ResolutionState) : Prop :=
  match pr with
  | Awaiting p => pass_inv refs st0 p st
  | Completed => none_loading st
  | Failed _ => False
  end.

(** the flags while the item of index [n] is awaited by a call made in
    the state [st0]: raised at [n], lowered below [n], and beyond [n] as
    they were in [st0] *)
Definition flags_at (st0 : ResolutionState) (n : nat) (st : ResolutionState) : Prop :=
  forall k : nat,
    isLoading st k =
    if decide (k = n) then true
    else if decide (k < n) then false
    else isLoading st0 k.

(** what holds while the item of index [n] of a list of remote references
    is awaited, and once the list is through *)
Definition remote_inv (refs : list string) (st0 : ResolutionState)
    (pr : progress) (st : ResolutionState) (n : nat) : Prop :=
  match pr with
  | Awaiting p =>
      files p = VString <$> refs /\ i p = n /\ n < length refs /\
      (forall k, newLoadingStates p !! k =
                 if decide (k = n) then Some true
                 else if decide (k < n) then Some false
                 else None) /\
      flags_at st0 n st
  | Completed => n = length refs /\ none_loading st
  | Failed _ => False
  end.

(** ** Reachable states and calls in flight *)

(** the states the component can be in *)
Inductive reachable `{Host} : Component -> Prop :=
| reachable_init (open disabled : bool) (attributes : option Attr.t) :
    reachable (init open disabled attributes).1
| reachable_step (c : Component) (e : event) :
    reachable c -> reachable (step c e).1.

(** the call numbered [pass] is in flight and a later call has been made *)
Definition superseded (c : Component) (pass : nat) : Prop :=
  is_Some (pending c !! pass) /\ S pass < started c.

(** what a suspended call holds in its private maps: a type for every
    index before the awaited one and for no other, a lowered flag for
    every index before the awaited one, and no flag beyond it *)
Record pass_wf (p : Pass) : Prop := {
  wf_index : i p < length (files p);
  wf_types : forall k, is_Some (newFileTypes p !! k) <-> k < i p;
  wf_lowered : forall k, k < i p -> newLoadingStates p !! k = Some false;
  wf_beyond : forall k, i p < k -> newLoadingStates p !! k = None;
}.

(** every call in flight is well formed and numbered below [started] *)
Definition pending_ok (c : Component) : Prop :=
  (forall pass p, pending c !! pass = Some p -> pass_wf p) /\
  (forall pass, is_Some (pending c !! pass) -> pass < started c).

(** ** A host and data for the examples

    [decode_references] replaces the five character references of XML and
    leaves every other text as it is, which is what the package does on
    the strings used below.  The base address is the empty string, as in
    a production build. *)

Definition decode_reference (s : string) : string :=
  if Str.startsWith s "&quot;" then String "034" (Str.drop 6 s)
  else if Str.startsWith s "&amp;" then String "&" (Str.drop 5 s)
  else if Str.startsWith s "&lt;" then String "<" (Str.drop 4 s)
  else if Str.startsWith s "&gt;" then String ">" (Str.drop 4 s)
  else if Str.startsWith s "&apos;" then String "'" (Str.drop 6 s)
  else s.

(** the references are replaced from the right: a replacement never
    yields a letter or a semicolon, so it cannot complete a reference that
    starts further left *)
Fixpoint decode_references (s : string) : string :=
  match s with
  | EmptyString => EmptyString
  | String c s' => decode_reference (String c (decode_references s'))
  end.

Definition example_host : Host :=
  {| decode := decode_references;
     WEBUI_BASE_URL := "";
     dev := false;
     stack_room := 10 * 1000 |}.

(** a development build served from [https://h] *)
Definition development_host : Host :=
  {| decode := decode_references;
     WEBUI_BASE_URL := "https://h";
     dev := true;
     stack_room := 10 * 1000 |}.

(** a list whose only item is the text of an empty object *)
Definition list_of_object_text : value := VArray [VString "{}"].

(** an object with a list inside *)
Definition sample_object : value :=
  VObject [("a", VArray [VBool true; VString "x"]); ("b", VNull)].

(** a closed panel that is not disabled and has no attributes *)
Definition closed_panel : Component :=
  {| open := false; disabled := false; attributes := None;
     resolution := Resolution ∅ ∅; pending := ∅; started := 0 |}.

(** the attributes of a tool call with the given [done] and [files] *)
Definition tool_call (done files : string) : Attr.t :=
  {| Attr.type := Some "tool_calls"; Attr.done := Some done;
     Attr.duration := None; Attr.name := Some "search"; Attr.id := Some "1";
     Attr.arguments := Some "{}"; Attr.result := None;
     Attr.files := Some files |}.

(** two responses and a failure *)
Definition png_response : Net.outcome :=
  Net.Fulfilled (Net.Response [("content-type", "image/png")]).
Definition pdf_response : Net.outcome :=
  Net.Fulfilled (Net.Response [("content-type", "application/pdf")]).
Definition network_failure : Net.outcome := Net.Rejected TypeError.

(** a finished tool call with one remote file, and the same call with
    another file *)
Definition call_with_png : Attr.t := tool_call "true" "[&quot;/a.png&quot;]".
Definition call_with_pdf : Attr.t := tool_call "true" "[&quot;/b.pdf&quot;]".

(** the call of [stale_scene] that is still in flight *)
Definition stale_pass : Pass :=
  {| files := [VString "/a.png"]; i := 0;
     newFileTypes := ∅; newLoadingStates := {[0 := true]} |}.

(** the panel is created with the list of one image; the list changes to
    one document while the first probe is in flight; the probe of the
    newer call settles *)
Definition stale_scene : Component :=
  (@run example_host
     (@init example_host false false (Some call_with_png)).1
     [SetAttributes (Some call_with_pdf); Settled 1 pdf_response]).1.

(** the panel is created with a list of two images, both probes settle,
    and the list changes to one document *)
Definition merge_scene : Component :=
  (@run example_host
     (@init example_host false false
        (Some (tool_call "true" "[&quot;/a.png&quot;,&quot;/c.png&quot;]"))).1
     [Settled 0 png_response; Settled 0 png_response;
      SetAttributes (Some call_with_pdf)]).1.

(** ** The markup (lines 181-416)

    What the markup shows, without the styling and the transitions.  The
    test [attributes.duration < 60] of line 209 coerces a string to a
    number; it is the parameter [below_sixty].  [decode] is given the
    empty string where the attribute [arguments] is absent. *)

(** the props that lay the panel out; a [title] of [None] is [null] *)
Record Layout := {
  title : option string;
  chevron : bool;
  grow : bool;
  hide : bool;
}.

(** the keys handed to the translation function in lines 207-245, with
    their parameters, and the title shown as it is *)
Inductive label :=
| Thinking
| ThoughtForSeconds (duration : string)
| ThoughtFor (duration : string)
| Analyzed
| Analyzing
| ViewResultFrom (name : option string)
| Executing (name : option string)
| Title (title : string).

(** the header of lines 185-256, resp. of lines 260-296 *)
Inductive heading :=
| Titled (spinner : bool) (text : label) (chevron_up : bool)
| Untitled (chevron_up : option bool) (content_slot : bool).

Record View := {
  header : heading;
  tool_details : option string;
  content_below : bool;
  attachments : completion (list attachment);
}.

Section Markup.
Context `{Host}.
Variable below_sixty : string -> bool.

(** lines 194-195 and 200: [attributes?.done && attributes?.done !== 'true'] *)
Definition in_progress (attributes : option Attr.t) : bool :=
  match attributes ≫= Attr.done with
  | Some done => Str.truthy done && negb (String.eqb done "true")
  | None => false
  end.

(** lines 207-245 *)
Definition header_label (title : string) (attributes : option Attr.t) : label :=
  let finished := bool_decide (attributes ≫= Attr.done = Some "true") in
  if decide (attributes ≫= Attr.type = Some "reasoning") then
    match attributes ≫= Attr.duration with
    | Some duration =>
        if finished && Str.truthy duration then
          if below_sixty duration then ThoughtForSeconds duration
          else ThoughtFor duration
        else Thinking
    | None => Thinking
    end
  else if decide (attributes ≫= Attr.type = Some "code_interpreter") then
    if finished then Analyzed else Analyzing
  else if decide (attributes ≫= Attr.type = Some "tool_calls") then
    if finished then ViewResultFrom (attributes ≫= Attr.name)
    else Executing (attributes ≫= Attr.name)
  else Title title.

(** the content of the [Markdown] of lines 309-322 *)
Definition tool_markdown (attributes : option Attr.t) : string :=
  let args := VString (decode (default "" (attributes ≫= Attr.arguments))) in
  let result := VString (decode (default "" (attributes ≫= Attr.result))) in
  "> ```json" +:+ JSON.newline +:+ "> " +:+ ToString (format args) +:+
  (if decide (attributes ≫= Attr.done = Some "true")
   then JSON.newline +:+ "> " +:+ ToString (format result)
   else "") +:+
  JSON.newline +:+ "> ```".

(** an item of the [{#each}] of line 332: its branch is taken and its
    element built *)
Definition mount_item (st : ResolutionState) (idx : nat) (file : value)
  : completion attachment :=
  match render_item st idx file with
  | Throw e => Throw e
  | Return r => mount r
  end.

(** the items of the [{#each}] of line 332, from the index [idx] on; the
    first item that raises ends the rendering *)
Fixpoint render_items (st : ResolutionState) (idx : nat) (items : list value)
  : completion (list attachment) :=
  match items with
  | [] => Return []
  | file :: rest =>
      match mount_item st idx file with
      | Throw e => Throw e
      | Return a =>
          match render_items st (S idx) rest with
          | Throw e => Throw e
          | Return shown => Return (a :: shown)
          end
      end
  end.

(** lines 331-406: [null] gives no item, and so does an object that is
    not an array (unless it has a key [length], see [updateFileTypes]) *)
Definition each_file (st : ResolutionState) (files : value)
  : completion (list attachment) :=
  match files with
  | VArray items => render_items st 0 items
  | _ => Return []
  end.

Definition view (l : Layout) (c : Component) : View :=
  let visible := open c && negb (hide l) in
  let tool := bool_decide (attributes c ≫= Attr.type = Some "tool_calls") in
  let finished := bool_decide (attributes c ≫= Attr.done = Some "true") in
  {| header :=
       match title l with
       | Some t => Titled (in_progress (attributes c))
                          (header_label t (attributes c)) (open c)
       | None => Untitled (if chevron l then Some (open c) else None)
                          (grow l && visible)
       end;
     tool_details :=
       if tool && negb (grow l) && visible
       then Some (tool_markdown (attributes c)) else None;
     content_below := negb tool && negb (grow l) && visible;
     attachments :=
       if tool && negb (grow l) && finished
       then each_file (resolution c) (decoded_files (attributes c))
       else Return [] |}.

End Markup.

(** is the slot [content] shown, in the header or below it? *)
Definition content_shown (v : View) : bool :=
  content_below v ||
  match header v with
  | Untitled _ content_slot => content_slot
  | Titled _ _ _ => false
  end.

(** ** The locale of the date library (lines 17-29)

    [dayjs.locale(locale)] is the library's; [raises locale] is what it
    raises for [locale], if anything.  The result is the locale that was
    set, if any, and the errors logged, in order. *)

Fixpoint loadLocale (raises : string -> option exn) (locales : list string)
  : option string * list (string * exn) :=
  match locales with
  | [] => (None, [])
  | locale :: rest =>
      match raises locale with
      | None => (Some locale, [])
      | Some error =>
          let '(set, logged) := loadLocale raises rest in
          (set, (locale, error) :: logged)
      end
  end.

(** ** More words for the properties *)

(** the type that [determineFileType] gives for a reference whose request,
    if one is made, settles as [o] *)
Definition resolved `{Host} (ref : string) (o : Net.outcome) : string :=
  match (settled (determineFileType (VString ref)) o).1 with
  | Return r => r
  | Throw _ => ""
  end.

(** does [determineFileType] make a request for [ref]? *)
Definition probed (ref : string) : bool := negb (isDataUrl ref) && Str.truthy ref.




(** an item that is not a string *)
Definition not_a_string (v : value) : Prop :=
  match v with
  | VString _ => False
  | _ => True
  end.

(** the type gathered for the item of index [k] of [refs] when the
    settlements are [os], one for each item in turn *)
Definition resolved_at `{Host} (refs : list string) (os : list Net.outcome)
    (k : nat) : option string :=
  match refs !! k, os !! k with
  | Some ref, Some o => Some (resolved ref o)
  | _, _ => None
  end.

(** what a call on [refs] holds while it awaits the item of index [n],
    the settlements being [os], and what the state is once the list is
    through *)
Definition types_inv `{Host} (refs : list string) (os : list Net.outcome)
    (pr : progress) (st : ResolutionState) (n : nat) : Prop :=
  match pr with
  | Awaiting p =>
      files p = VString <$> refs /\ i p = n /\ n < length refs /\
      (forall k, newFileTypes p !! k =
                 if decide (k < n) then resolved_at refs os k else None) /\
      (forall k, k < n -> newLoadingStates p !! k = Some false) /\
      (forall k, n < k -> newLoadingStates p !! k = None)
  | Completed =>
      n = length refs /\
      (forall k, fileTypes st !! k = resolved_at refs os k) /\
      (forall k, loadingFileTypes st !! k =
                 if decide (k < length refs) then Some false else None)
  | Failed _ => False
  end.

(** the requests made from the first step of a call on *)
Definition requests_made (does : list (list effect)) : list Net.request :=
  concat (requests <$> does).

(** what holds of a call on [items] whose item of index [n] is the first
    that is not a string: while it awaits the item of index [m], and once
    it has failed *)
Definition failing_inv (items : list value) (n : nat)
    (pr : progress) (st : ResolutionState) (m : nat) : Prop :=
  match pr with
  | Awaiting p =>
      files p = items /\ i p = m /\ m < n /\
      (forall ref, items !! m = Some (VString ref) -> isDataUrl ref = false ->
                   isLoading st m = true)
  | Completed => False
  | Failed e =>
      e = TypeError /\ m = n /\
      (forall ref, 0 < n -> items !! (n - 1) = Some (VString ref) ->
                   isDataUrl ref = false -> isLoading st (n - 1) = true)
  end.


(** data for the examples *)
(** a finished tool call with three remote images; two of its probes
    settle, then the same attributes are assigned again *)
Definition call_with_three : Attr.t :=
  tool_call "true" "[&quot;/a.png&quot;,&quot;/b.png&quot;,&quot;/c.png&quot;]".

Definition overlap_scene : Component :=
  (@run example_host
     (@init example_host false false (Some call_with_three)).1
     [Settled 0 png_response; Settled 0 png_response;
      SetAttributes (Some call_with_three)]).1.


Definition titled_panel : Layout :=
  {| title := Some "Details"; chevron := false; grow := false; hide := false |}.

(** a date library without the locales of regions: it raises for a tag
    with a hyphen *)
Definition no_regions (locale : string) : option exn :=
  if Str.mem "-" locale then Some (Exn "Error") else None.

(** what is logged for the locales [locales] when none of them loads *)
Definition logged (raises : string -> option exn) (locales : list string)
  : list (string * exn) :=
  omap (fun locale => pair locale <$> raises locale) locales.

(** * Properties *)

(** ** The examples of the specification *)

Example isDataUrl_example : isDataUrl "data:image/png;base64,AA==" = true.
Proof. reflexivity. Qed.

Example getFullUrl_relative :
  @getFullUrl development_host "foo/bar" = "https://h/foo/bar" /\
  @getFullUrl development_host "/foo/bar" = "https://h/foo/bar" /\
  @getFullUrl development_host "https://other/x" = "https://other/x".
Proof. repeat split. Qed.

(** the text of a list, encoded once more as a JSON string *)
Example normalize_doubly_encoded :
  @normalize example_host (VString (decode_references "&quot;[1,2,3]&quot;"))
  = VArray [VNumber (Number false "1" 1); VNumber (Number false "2" 1);
            VNumber (Number false "3" 1)].
Proof. vm_compute. reflexivity. Qed.

(** a number is unwrapped until the stack is full, and comes back as a
    number *)
Example normalize_number :
  @normalize example_host (VString "1") = VNumber (Number false "1" 1).
Proof. vm_compute. reflexivity. Qed.

(** line 79 quotes a string that is not JSON (the [catch] of line 81 is
    not reached for it); a list is printed with two spaces of indentation *)
Example format_examples :
  @format example_host (VString "not json") = VString (decode_references "&quot;not json&quot;") /\
  @format example_host (VString "[1,[]]")
  = VString ("[" +:+ JSON.newline +:+ "  1," +:+ JSON.newline +:+ "  []" +:+
             JSON.newline +:+ "]").
Proof. split; vm_compute; reflexivity. Qed.

(** the finished tool call of the specification, with one inline text
    file: no request is made, and the item is shown as text *)
Example inline_text_end_to_end :
  @init example_host true false
    (Some (tool_call "true" "[&quot;data:text/plain;base64,aGVsbG8=&quot;]"))
  = ({| open := true; disabled := false;
        attributes := Some (tool_call "true" "[&quot;data:text/plain;base64,aGVsbG8=&quot;]");
        resolution := Resolution ∅ ∅;
        pending := {[0 := Build_Pass [VString "data:text/plain;base64,aGVsbG8="] 0 ∅ ∅]};
        started := 1 |},
     [OnChange true]) /\
  @render_item example_host
    (resolution
       (@run example_host
          (@init example_host true false
             (Some (tool_call "true" "[&quot;data:text/plain;base64,aGVsbG8=&quot;]"))).1
          [Settled 0 network_failure]).1)
    0 (VString "data:text/plain;base64,aGVsbG8=")
  = Return (TextContent "text/plain" "aGVsbG8=").
Proof. split; vm_compute; reflexivity. Qed.

(** [atob] accepts a text without its padding and refuses one whose
    length is one more than a multiple of four *)
Example atob_examples :
  Base64.atob "aGVsbG8=" = Return "hello" /\
  Base64.atob "aGVs bG8" = Return "hello" /\
  Base64.atob "hello" = Throw Base64.InvalidCharacterError /\
  Base64.atob "YQ=" = Throw Base64.InvalidCharacterError.
Proof. repeat split; vm_compute; reflexivity. Qed.

(** an inline text in base64 is shown decoded; for an inline text that
    is not in base64 the rendering raises *)
Example inline_text_shown :
  attachments
    (@view example_host (fun _ => true) titled_panel
       (@run example_host
          (@init example_host true false
             (Some (tool_call "true" "[&quot;data:text/plain;base64,aGVsbG8=&quot;]"))).1
          [Settled 0 network_failure]).1)
  = Return [DecodedText "text/plain" "hello"] /\
  attachments
    (@view example_host (fun _ => true) titled_panel
       (@run example_host
          (@init example_host true false
             (Some (tool_call "true"
                      "[&quot;data:text/plain;charset=utf-8,hello&quot;]"))).1
          [Settled 0 network_failure]).1)
  = Throw Base64.InvalidCharacterError.
Proof. split; vm_compute; reflexivity. Qed.

(** a list in a list is printed when the stack has room for the
    serializer, and comes back as it is when it has not *)
Example format_nested :
  formatJSONString 4 (VString "[[]]")
  = Return (VString ("[" +:+ JSON.newline +:+ "  []" +:+ JSON.newline +:+ "]")) /\
  formatJSONString 3 (VString "[[]]") = Return (VString "[[]]").
Proof. split; vm_compute; reflexivity. Qed.

(** an update that assigns the callback calls it with the value of
    [open], which has not changed *)
Example callback_assigned :
  @step example_host closed_panel
    (SetProps {| set_open := None; set_disabled := None;
                 set_attributes := None; set_onChange := true |})
  = (closed_panel, [OnChange false]).
Proof. reflexivity. Qed.

(** ** Strings *)

Lemma span_prefix (f : ascii -> bool) (m rest : string) (c : ascii) :
  forallb f (list_ascii_of_string m) = true ->
  f c = false ->
  Str.span f (m +:+ String c rest) = (m, String c rest).
Proof.
  intros Hm Hc. induction m as [|d m IH]; simpl in *.
  - by rewrite Hc.
  - apply andb_prop in Hm as [Hd Hm]. rewrite Hd, IH; done.
Qed.

Lemma mem_false_forallb (c : ascii) (m : string) :
  Str.mem c m = false ->
  forallb (fun d => negb (Ascii.eqb d c)) (list_ascii_of_string m) = true.
Proof.
  unfold Str.mem. induction (list_ascii_of_string m) as [|d l IH]; simpl; [done|].
  intros [Hd Hl]%orb_false_elim. rewrite IH by done.
  rewrite Ascii.eqb_sym, Hd. done.
Qed.

(** ** URL classifier *)

Lemma span_all (f : ascii -> bool) (m : string) :
  forallb f (list_ascii_of_string m) = true -> Str.span f m = (m, "").
Proof.
  induction m as [|d m IH]; simpl; [done|].
  intros [Hd Hm]%andb_prop. by rewrite Hd, IH.
Qed.

(** C9, as stated, fails for a reference that has no semicolon: the
    pattern of line 97 does not ask for one, so everything after [data:]
    is returned, not the empty string. *)
Lemma marker_absent_counterexample :
  isDataUrl "data:text/plain,hello" = true /\
  Str.mem ";" "data:text/plain,hello" = false /\
  getDataUrlMimeType "data:text/plain,hello" = "text/plain,hello" /\
  getDataUrlMimeType "data:text/plain,hello" <> "" /\
  getDataUrlMimeType "data:,hello" = ",hello".
Proof. repeat split; (reflexivity || discriminate). Qed.

(** C9, amended: [getDataUrlMimeType] returns the text between [data:]
    and the first semicolon of an inline-data reference (so the reference
    [data:image/png;base64,AA==] gives [image/png]), and everything after
    [data:] when the reference has no semicolon.  It returns the empty
    string when nothing stands between the prefix and the semicolon or
    the end, and when the reference does not start with [data:]. *)
Theorem getDataUrlMimeType_marker :
  (forall m rest : string,
      Str.mem ";" m = false ->
      getDataUrlMimeType ("data:" +:+ m +:+ ";" +:+ rest) = m) /\
  getDataUrlMimeType "data:image/png;base64,AA==" = "image/png" /\
  (forall m : string,
      Str.mem ";" m = false -> getDataUrlMimeType ("data:" +:+ m) = m) /\
  (forall rest : string, getDataUrlMimeType ("data:;" +:+ rest) = "") /\
  getDataUrlMimeType "data:" = "" /\
  (forall ref : string, isDataUrl ref = false -> getDataUrlMimeType ref = "").
Proof.
  split; [|split; [|split; [|split; [|split]]]]; try done.
  - intros m rest Hm. unfold getDataUrlMimeType, match_data_mime.
    change (Str.startsWith ("data:" +:+ m +:+ ";" +:+ rest) "data:") with true.
    change (Str.drop 5 ("data:" +:+ m +:+ ";" +:+ rest)) with (m +:+ String ";" rest).
    rewrite span_prefix; [by destruct m | by apply mem_false_forallb | done].
  - intros m Hm. unfold getDataUrlMimeType, match_data_mime.
    change (Str.startsWith ("data:" +:+ m) "data:") with true.
    change (Str.drop 5 ("data:" +:+ m)) with m.
    rewrite span_all; [by destruct m | by apply mem_false_forallb].
  - intros ref Href. unfold getDataUrlMimeType, match_data_mime.
    unfold isDataUrl in Href. by rewrite Href.
Qed.

Lemma getDataUrlMimeType_marker_witness :
  Str.mem ";" "text/plain" = false /\
  getDataUrlMimeType ("data:" +:+ "text/plain" +:+ ";" +:+ "charset=utf-8,hello") = "text/plain".
Proof.
  split; [reflexivity|].
  apply (proj1 getDataUrlMimeType_marker). reflexivity.
Defined.

(** ** Presentation dispatcher *)

Lemma truthy_empty (s : string) : Str.truthy s = false <-> s = "".
Proof. by destruct s. Qed.

Lemma dispatch_selects `{Host} (ref mimeType : string) (isLoading : bool) :
  selects ref mimeType isLoading (branch_of (dispatch ref mimeType isLoading)).
Proof.
  unfold dispatch.
  destruct isLoading; [by constructor|].
  destruct (Str.startsWith mimeType "image/") eqn:Himage; [by constructor|].
  destruct (Str.startsWith mimeType "audio/") eqn:Haudio; [by constructor|].
  destruct (Str.startsWith mimeType "video/") eqn:Hvideo; [by constructor|].
  destruct (Str.includes mimeType "pdf") eqn:Hpdf; [by constructor|].
  destruct (Str.startsWith mimeType "text/") eqn:Htext.
  { simpl. destruct (isDataUrl ref); apply select_text; auto. }
  destruct (Str.includes mimeType "json") eqn:Hjson.
  { simpl. destruct (isDataUrl ref); apply select_text; auto. }
  destruct (Str.includes mimeType "xml") eqn:Hxml.
  { simpl. destruct (isDataUrl ref); apply select_text; auto. }
  simpl. destruct (Str.truthy ref) eqn:Href.
  - destruct (isDataUrl ref); apply select_generic; auto;
      intros ->; discriminate.
  - apply select_nothing; auto. by apply truthy_empty.
Qed.

Lemma selects_functional (ref mimeType : string) (isLoading : bool) (b1 b2 : branch) :
  selects ref mimeType isLoading b1 ->
  selects ref mimeType isLoading b2 ->
  b1 = b2.
Proof.
  intros H1 H2.
  destruct H1; destruct H2; try reflexivity; try congruence;
    repeat match goal with
           | H : _ \/ _ |- _ => destruct H
           end; congruence.
Qed.

(** C1: for every item the dispatcher selects exactly one branch, fixed
    by the reference, the resolved MIME type and the loading flag alone,
    following the precedence: loading placeholder; the prefixes [image/],
    [audio/], [video/]; a type containing [pdf]; a type starting with
    [text/] or containing [json] or [xml]; any other reference that is not
    empty; nothing for an empty reference.  So a loading item shows the
    placeholder whatever its type, and [application/pdf] selects the
    document viewer. *)
Theorem dispatcher_precedence (host host' : Host) (ref mimeType : string) (loading : bool) :
  (forall (st : ResolutionState) (idx : nat),
      @render_item host st idx (VString ref)
      = Return (@dispatch host ref (contentType st idx) (isLoading st idx))) /\
  (exists! b : branch, selects ref mimeType loading b) /\
  (forall b : branch,
      selects ref mimeType loading b <->
      branch_of (@dispatch host ref mimeType loading) = b) /\
  branch_of (@dispatch host ref mimeType loading) =
    branch_of (@dispatch host' ref mimeType loading) /\
  branch_of (@dispatch host ref mimeType true) = LoadingPlaceholder /\
  branch_of (@dispatch host ref "image/png" true) = LoadingPlaceholder /\
  branch_of (@dispatch host ref "application/pdf" false) = DocumentViewer.
Proof.
  assert (Hiff : forall (h : Host) b, selects ref mimeType loading b <->
                   branch_of (@dispatch h ref mimeType loading) = b).
  { intros h b. split.
    - intros Hb. eapply selects_functional; [apply dispatch_selects | exact Hb].
    - intros <-. apply dispatch_selects. }
  split; [done|]. repeat split.
  - exists (branch_of (@dispatch host ref mimeType loading)). split.
    + apply dispatch_selects.
    + intros b Hb. by apply Hiff.
  - apply Hiff.
  - apply Hiff.
  - apply Hiff, dispatch_selects.
Qed.

(** ** Recursive JSON normalizer *)

Lemma parseJSONString_returns (room : nat) (str : value) :
  exists v, parseJSONString (S room) str = Return v.
Proof.
  simpl. destruct (JSON.parse str) as [parsed|e]; [|by eexists].
  destruct (parseJSONString room parsed); by eexists.
Qed.

Lemma parseJSONString_failure (room : nat) (str : value) (e : exn) :
  JSON.parse str = Throw e -> parseJSONString (S room) str = Return str.
Proof. intros He. simpl. by rewrite He. Qed.

Lemma parseJSONString_unwraps (n room : nat) (str held : value) (e : exn) :
  unwraps n str held ->
  JSON.parse held = Throw e ->
  n <= room ->
  parseJSONString (S room) str = Return held.
Proof.
  intros Hn. revert room. induction Hn as [v|n v u w Hv Hn IH]; intros room He Hroom.
  - by eapply parseJSONString_failure.
  - destruct room as [|room]; [lia|].
    change (parseJSONString (S (S room)) v) with
      (match JSON.parse v with
       | Throw _ => Return v
       | Return parsed =>
           match parseJSONString (S room) parsed with
           | Return r => Return r
           | Throw _ => Return v
           end
       end).
    rewrite Hv, IH; [done | done | lia].
Qed.

Lemma normalize_unwraps `{Host} (n : nat) (str held : value) (e : exn) :
  unwraps n str held ->
  JSON.parse held = Throw e ->
  n <= stack_room ->
  normalize str = held.
Proof.
  intros Hn He Hroom. unfold normalize.
  by erewrite parseJSONString_unwraps.
Qed.

(** C5: [parseJSONString] never raises: a call returns a value for every
    input.  When [JSON.parse] fails, at the first level or after any
    number of successful levels, the value held at that level is returned
    as it is; so an input that is not JSON at all, such as [not json],
    comes back unchanged. *)
Theorem parseJSONString_never_throws :
  (forall (room : nat) (str : value),
      exists v, parseJSONString (S room) str = Return v) /\
  (forall (n room : nat) (str held : value) (e : exn),
      unwraps n str held ->
      JSON.parse held = Throw e ->
      n <= room ->
      parseJSONString (S room) str = Return held) /\
  (forall (room : nat) (s : string),
      JSON.parse_text s = None ->
      parseJSONString (S room) (VString s) = Return (VString s)) /\
  (forall room : nat,
      parseJSONString (S room) (VString "not json") = Return (VString "not json")).
Proof.
  split; [exact parseJSONString_returns|].
  split; [exact parseJSONString_unwraps|].
  assert (Hfail : forall room s, JSON.parse_text s = None ->
            parseJSONString (S room) (VString s) = Return (VString s)).
  { intros room s Hs. apply parseJSONString_failure with SyntaxError.
    unfold JSON.parse. simpl. by rewrite Hs. }
  split; [exact Hfail|].
  intros room. apply Hfail. reflexivity.
Qed.

Lemma parseJSONString_never_throws_witness :
  unwraps 1 (VString " [ true , null ] ") (VArray [VBool true; VNull]) /\
  JSON.parse (VArray [VBool true; VNull]) = Throw SyntaxError /\
  1 <= 1 /\
  parseJSONString 2 (VString " [ true , null ] ") = Return (VArray [VBool true; VNull]).
Proof.
  assert (H1 : unwraps 1 (VString " [ true , null ] ") (VArray [VBool true; VNull])).
  { eapply unwraps_parse; [reflexivity | constructor]. }
  assert (H2 : JSON.parse (VArray [VBool true; VNull]) = Throw SyntaxError)
    by reflexivity.
  split; [exact H1|]. split; [exact H2|]. split; [lia|].
  exact (proj1 (proj2 parseJSONString_never_throws) 1 1 _ _ _ H1 H2 (le_n 1)).
Defined.

(** a structured value that is not JSON text itself is serialized, or
    comes back as it is when it is nested too deeply for the stack *)
Lemma format_structured `{Host} (x : value) :
  0 < stack_room ->
  structured x ->
  JSON.parse x = Throw SyntaxError ->
  format x = VString (JSON.stringify2 x) \/ format x = x.
Proof.
  intros Hroom Hx Hparse. unfold format, formatJSONString.
  destruct stack_room as [|room]; [lia|].
  rewrite (parseJSONString_failure _ _ _ Hparse).
  unfold JSON.stringify2_in.
  destruct x; try done; simpl; destruct (decide _); auto.
Qed.

(** C4, as stated, fails: the list whose only item is the string [{}]
    round-trips through JSON, yet [formatJSONString] prints it as the empty
    object and [parseJSONString] gives the empty object back.  The coercion
    of the list to a string, which [JSON.parse] applies to its argument,
    is [{}], and that parses.  The same happens when the list is handed
    over as its serialization. *)
Lemma normalize_format_counterexample :
  structured list_of_object_text /\
  round_trips list_of_object_text /\
  @format example_host list_of_object_text = VString "{}" /\
  @normalize example_host (@format example_host list_of_object_text) = VObject [] /\
  @normalize example_host (@format example_host list_of_object_text)
    <> list_of_object_text /\
  @normalize example_host
    (@format example_host (VString (JSON.stringify list_of_object_text)))
    <> list_of_object_text.
Proof.
  split; [exact I|]. split; [reflexivity|].
  split; [vm_compute; reflexivity|].
  split; [vm_compute; reflexivity|].
  split; vm_compute; discriminate.
Qed.

(** C4, amended: for every structured value [x] that round-trips through
    JSON and whose own coercion to a string is not JSON text,
    [normalize (format x) = x].  Every object and the empty list meet the
    second condition. *)
Theorem normalize_format_roundtrip (host : Host) :
  0 < stack_room ->
  (forall x : value,
      structured x ->
      round_trips x ->
      JSON.parse x = Throw SyntaxError ->
      normalize (format x) = x) /\
  (forall props : list (string * value),
      round_trips (VObject props) ->
      normalize (format (VObject props)) = VObject props) /\
  (round_trips (VArray []) -> normalize (format (VArray [])) = VArray []).
Proof.
  intros Hroom.
  assert (Hgen : forall x, structured x -> round_trips x ->
            JSON.parse x = Throw SyntaxError -> normalize (format x) = x).
  { intros x Hx Hround Hparse.
    destruct (format_structured x Hroom Hx Hparse) as [-> | ->].
    - apply normalize_unwraps with 1 SyntaxError; [|done|lia].
      eapply unwraps_parse; [exact Hround | constructor].
    - apply normalize_unwraps with 0 SyntaxError; [constructor|done|lia]. }
  split; [exact Hgen|]. split.
  - intros props Hround. by apply Hgen.
  - intros Hround. by apply Hgen.
Qed.

Lemma normalize_format_roundtrip_witness :
  0 < @stack_room example_host /\
  structured sample_object /\
  round_trips sample_object /\
  JSON.parse sample_object = Throw SyntaxError /\
  @normalize example_host (@format example_host sample_object) = sample_object.
Proof.
  assert (H0 : 0 < @stack_room example_host) by (vm_compute; lia).
  assert (H1 : structured sample_object) by exact I.
  assert (H2 : round_trips sample_object) by reflexivity.
  assert (H3 : JSON.parse sample_object = Throw SyntaxError) by reflexivity.
  split; [exact H0|]. split; [exact H1|]. split; [exact H2|]. split; [exact H3|].
  exact (proj1 (normalize_format_roundtrip example_host H0) sample_object H1 H2 H3).
Defined.

(** ** Content-type prober *)

Lemma or_empty (s : string) : Str.or s "" = s.
Proof. by destruct s. Qed.

(** C6: [getContentTypeFromServer] makes one request and gives the value
    of the [content-type] header of the response; it gives the empty
    string when the header is absent and when the request fails, whatever
    the failure, and it never raises.  Cancelling the transfer once the
    headers are there is not a failure: the header value is still the
    result and nothing is logged.  A rejection named [AbortError] gives
    the empty string without a log entry; any other rejection is logged. *)
Theorem getContentTypeFromServer_result (host : Host) (url : string) :
  called (getContentTypeFromServer url) = [Fetch (probe_request url)] /\
  (forall (response : Net.response) (v : string),
      Net.get (Net.headers response) "content-type" = Some v ->
      settled (getContentTypeFromServer url) (Net.Fulfilled response)
      = (Return v, [Abort (probe_request url)])) /\
  (forall response : Net.response,
      Net.get (Net.headers response) "content-type" = None ->
      settled (getContentTypeFromServer url) (Net.Fulfilled response)
      = (Return "", [Abort (probe_request url)])) /\
  (forall error : exn,
      name error = "AbortError" ->
      settled (getContentTypeFromServer url) (Net.Rejected error) = (Return "", [])) /\
  (forall error : exn,
      name error <> "AbortError" ->
      settled (getContentTypeFromServer url) (Net.Rejected error)
      = (Return "", [ConsoleError url error])) /\
  (forall o : Net.outcome,
      exists r, (settled (getContentTypeFromServer url) o).1 = Return r).
Proof.
  split; [reflexivity|].
  split.
  { intros response v Hv. simpl. by rewrite Hv, or_empty. }
  split.
  { intros response Hv. simpl. by rewrite Hv. }
  split.
  { intros error Hname. simpl. by destruct (decide _). }
  split.
  { intros error Hname. simpl. by destruct (decide _). }
  intros [response|error]; simpl; eauto.
Qed.

Lemma getContentTypeFromServer_result_witness :
  Net.get [("Content-Type", "application/pdf")] "content-type" = Some "application/pdf" /\
  name (Exn "AbortError") = "AbortError" /\
  name TypeError <> "AbortError" /\
  settled (@getContentTypeFromServer example_host "/files/1")
          (Net.Fulfilled (Net.Response [("Content-Type", "application/pdf")]))
  = (Return "application/pdf", [Abort (@probe_request example_host "/files/1")]) /\
  settled (@getContentTypeFromServer example_host "/files/1")
          (Net.Rejected (Exn "AbortError"))
  = (Return "", []) /\
  settled (@getContentTypeFromServer example_host "/files/1")
          (Net.Rejected TypeError)
  = (Return "", [ConsoleError "/files/1" TypeError]).
Proof.
  pose proof (getContentTypeFromServer_result example_host "/files/1")
    as (_ & Hvalue & _ & Habort & Hother & _).
  assert (H1 : Net.get [("Content-Type", "application/pdf")] "content-type"
               = Some "application/pdf") by reflexivity.
  assert (H2 : name (Exn "AbortError") = "AbortError") by reflexivity.
  assert (H3 : name TypeError <> "AbortError") by discriminate.
  split; [exact H1|]. split; [exact H2|]. split; [exact H3|].
  split; [exact (Hvalue (Net.Response _) _ H1)|].
  split; [exact (Habort _ H2) | exact (Hother _ H3)].
Defined.

(** ** Disclosure controller *)

(** C8: a release of the pointer on the header while the panel is not
    disabled flips [open] and calls [onChange] once, with the new value
    ([true] when the panel was closed); nothing else changes and nothing
    else is done.  While the panel is disabled the event changes nothing
    and calls nothing. *)
Theorem toggle_notifies (host : Host) (c : Component) :
  (disabled c = false ->
   step c PointerUp =
     ({| open := negb (open c); disabled := disabled c;
         attributes := attributes c; resolution := resolution c;
         pending := pending c; started := started c |},
      [OnChange (negb (open c))])) /\
  (disabled c = false -> open c = false ->
   open (step c PointerUp).1 = true /\ (step c PointerUp).2 = [OnChange true]) /\
  (disabled c = true -> step c PointerUp = (c, [])).
Proof.
  split; [|split].
  - intros Hd. simpl. by rewrite Hd.
  - intros Hd Ho. simpl. by rewrite Hd, Ho.
  - intros Hd. simpl. by rewrite Hd.
Qed.

Lemma toggle_notifies_witness :
  disabled closed_panel = false /\
  open closed_panel = false /\
  (@step example_host closed_panel PointerUp).2 = [OnChange true] /\
  open (@step example_host closed_panel PointerUp).1 = true.
Proof.
  assert (H1 : disabled closed_panel = false) by reflexivity.
  assert (H2 : open closed_panel = false) by reflexivity.
  split; [exact H1|]. split; [exact H2|].
  destruct (proj1 (proj2 (toggle_notifies example_host closed_panel)) H1 H2)
    as [Hopen Heffects].
  split; [exact Heffects | exact Hopen].
Defined.

(** the sequencer itself never calls [onChange] *)
Lemma iterate_effects `{Host} (files : list value) (i : nat)
    (nft : gmap nat string) (nls : gmap nat bool) (st : ResolutionState)
    (b : bool) :
  OnChange b ∉ (iterate files i nft nls st).2.
Proof.
  unfold iterate. destruct (files !! i) as [file|]; simpl; [|set_solver].
  destruct file as [| | |url| |]; simpl; try set_solver.
  destruct (isDataUrl url) eqn:Hurl; simpl; rewrite ?Hurl; simpl; [set_solver|].
  destruct (Str.truthy url); simpl; [|set_solver].
  intros [Hin|Hin]%elem_of_cons; [discriminate | set_solver].
Qed.

Lemma updateFileTypes_effects `{Host} (files : value) (st : ResolutionState) (b : bool) :
  OnChange b ∉ (updateFileTypes files st).2.
Proof.
  destruct files; simpl; try set_solver; apply iterate_effects.
Qed.

Lemma run_files_statement_effects `{Host} (c : Component) (b : bool) :
  OnChange b ∉ (run_files_statement c).2.
Proof.
  unfold run_files_statement. destruct (files_statement _) as [files|]; simpl;
    [|set_solver].
  unfold call_updateFileTypes.
  pose proof (updateFileTypes_effects files (resolution c) b) as Hnot.
  by destruct (updateFileTypes files (resolution c)) as [[st pr] effs].
Qed.

(** C10: creating the panel calls [onChange] once, with the value [open]
    was given, before any event: the call is the first thing the panel
    does and no other call of [onChange] is made during creation. *)
Theorem init_notifies (host : Host) (seed disabled : bool) (attributes : option Attr.t) :
  exists (c : Component) (effs : list effect),
    init seed disabled attributes = (c, OnChange seed :: effs) /\
    open c = seed /\
    (forall b : bool, OnChange b ∉ effs).
Proof.
  unfold init.
  set (c0 := {| open := seed; disabled := disabled; attributes := attributes;
                resolution := Resolution ∅ ∅; pending := ∅; started := 0 |}).
  pose proof (run_files_statement_effects c0) as Hnot.
  assert (Hopen : open (run_files_statement c0).1 = seed).
  { unfold run_files_statement. destruct (files_statement _); [|done].
    unfold call_updateFileTypes.
    by destruct (updateFileTypes _ _) as [[st pr] effs]. }
  destruct (run_files_statement c0) as [c effs]. by exists c, effs.
Qed.

(** ** The reactive statement on [attributes] *)

(** C7, as stated, fails: while [done] is not the string [true], a change
    of the decoded files value makes no call of [updateFileTypes].  Here a
    tool call that is still running gets another list of files: the
    decoded values differ, no call is made and nothing is requested. *)
Lemma files_change_counterexample :
  @decoded_files example_host (Some (tool_call "false" "[&quot;/a.png&quot;]"))
    = VArray [VString "/a.png"] /\
  @decoded_files example_host (Some (tool_call "false" "[&quot;/b.pdf&quot;]"))
    = VArray [VString "/b.pdf"] /\
  @step example_host
     (@init example_host false false (Some (tool_call "false" "[&quot;/a.png&quot;]"))).1
     (SetAttributes (Some (tool_call "false" "[&quot;/b.pdf&quot;]")))
  = (with_attributes closed_panel (Some (tool_call "false" "[&quot;/b.pdf&quot;]")), []) /\
  started
    (@step example_host
       (@init example_host false false (Some (tool_call "false" "[&quot;/a.png&quot;]"))).1
       (SetAttributes (Some (tool_call "false" "[&quot;/b.pdf&quot;]")))).1
  = 0.
Proof.
  repeat split; vm_compute; reflexivity.
Qed.

(** C7, amended: whenever [attributes] is assigned an object, the
    reactive statement runs again; it calls [updateFileTypes], with the
    decoded files value, exactly when [attributes.done] is the string
    [true] and that value is truthy, whether or not the value differs
    from the one before.  Otherwise no call is made and the assignment
    has no other effect. *)
Theorem files_statement_runs (host : Host) (c : Component) (a : Attr.t) :
  (Attr.done a = Some "true" ->
   truthy (decoded_files (Some a)) = true ->
   step c (SetAttributes (Some a))
   = call_updateFileTypes (decoded_files (Some a)) (with_attributes c (Some a))) /\
  (Attr.done a <> Some "true" \/ truthy (decoded_files (Some a)) = false ->
   step c (SetAttributes (Some a)) = (with_attributes c (Some a), [])) /\
  (started (step c (SetAttributes (Some a))).1 = S (started c) <->
   Attr.done a = Some "true" /\ truthy (decoded_files (Some a)) = true).
Proof.
  assert (Hstep : step c (SetAttributes (Some a))
                  = run_files_statement (with_attributes c (Some a))) by done.
  rewrite Hstep. unfold run_files_statement, files_statement. simpl.
  destruct (decide (Attr.done a = Some "true")) as [Hdone|Hdone];
    [destruct (truthy (decoded_files (Some a))) eqn:Htruthy|].
  - split; [done|]. split; [intros [?|?]; done|].
    unfold call_updateFileTypes.
    destruct (updateFileTypes _ _) as [[st pr] effs]. simpl. done.
  - split; [done|]. split; [done|]. simpl. split; [lia | intros [_ ?]; done].
  - split; [done|]. split; [done|]. simpl. split; [lia | intros [? _]; done].
Qed.

Lemma files_statement_runs_witness :
  Attr.done (tool_call "true" "[&quot;/a.png&quot;]") = Some "true" /\
  truthy (@decoded_files example_host (Some (tool_call "true" "[&quot;/a.png&quot;]"))) = true /\
  @step example_host closed_panel (SetAttributes (Some (tool_call "true" "[&quot;/a.png&quot;]")))
  = @call_updateFileTypes example_host (VArray [VString "/a.png"])
      (with_attributes closed_panel (Some (tool_call "true" "[&quot;/a.png&quot;]"))).
Proof.
  assert (H1 : Attr.done (tool_call "true" "[&quot;/a.png&quot;]") = Some "true")
    by reflexivity.
  assert (H2 : truthy (@decoded_files example_host
                         (Some (tool_call "true" "[&quot;/a.png&quot;]"))) = true)
    by (vm_compute; reflexivity).
  split; [exact H1|]. split; [exact H2|].
  exact (proj1 (files_statement_runs example_host closed_panel _) H1 H2).
Defined.

(** ** Attachment resolution sequencer *)

Lemma isLoading_union (ft : gmap nat string) (m1 m2 : gmap nat bool) (k : nat) :
  isLoading (Resolution ft (m1 ∪ m2)) k =
  match m1 !! k with
  | Some b => b
  | None => default false (m2 !! k)
  end.
Proof.
  unfold isLoading. simpl. rewrite lookup_union.
  destruct (m1 !! k), (m2 !! k); done.
Qed.

Lemma determineFileType_string `{Host} (url : string) (o : Net.outcome) :
  exists r effs, settled (determineFileType (VString url)) o = (Return r, effs).
Proof.
  simpl. destruct (isDataUrl url); [by eexists _, _|].
  destruct (Str.truthy url); [|by eexists _, _].
  destruct o as [response|error]; simpl; by eexists _, _.
Qed.

Section OnePass.
Context `{Host}.
Variable refs : list string.
Variable st0 : ResolutionState.

Lemma iterate_inv (n : nat) (nft : gmap nat string) (nls : gmap nat bool)
    (st : ResolutionState) :
  n <= length refs ->
  (forall k, nls !! k <> Some true) ->
  (forall k, isLoading st k = true -> remote_at refs k \/ isLoading st0 k = true) ->
  progress_inv refs st0 (iterate (VString <$> refs) n nft nls st).1.2
               (iterate (VString <$> refs) n nft nls st).1.1.
Proof.
  intros Hn Hnls Hst. unfold iterate. rewrite list_lookup_fmap.
  destruct (refs !! n) as [ref|] eqn:Href; simpl.
  - apply lookup_lt_Some in Href as Hlt.
    destruct (isDataUrl ref) eqn:Hdata; simpl.
    + split; simpl; [done | done | | done].
      intros k Hk. by destruct (Hnls k).
    + split; simpl; [done | done | |].
      * intros k Hk. destruct (decide (k = n)) as [->|Hne].
        -- split; [done|]. by exists ref.
        -- rewrite lookup_insert_ne in Hk by done. by destruct (Hnls k).
      * intros k. rewrite isLoading_union.
        destruct (decide (k = n)) as [->|Hne].
        -- intros _. left. by exists ref.
        -- rewrite lookup_insert_ne by done.
           destruct (nls !! k) as [[]|] eqn:Hk; [by destruct (Hnls k) | done |].
           apply Hst.
  - intros k. unfold isLoading. simpl.
    destruct (nls !! k) as [[]|] eqn:Hk; [by destruct (Hnls k) | done | done].
Qed.

Lemma resume_inv (p : Pass) (st : ResolutionState) (o : Net.outcome) :
  pass_inv refs st0 p st ->
  progress_inv refs st0 (resume p o st).1.2 (resume p o st).1.1.
Proof.
  intros [Hfiles Hindex Hprivate Hstate]. unfold resume.
  rewrite Hfiles, list_lookup_fmap.
  destruct (refs !! i p) as [ref|] eqn:Href;
    [|apply lookup_ge_None in Href; lia]. simpl.
  destruct (determineFileType_string ref o) as (r & effs & Hr).
  simpl in Hr. rewrite Hr.
  pose proof (iterate_inv (S (i p)) (<[i p := r]> (newFileTypes p))
                (<[i p := false]> (newLoadingStates p)) st) as Hnext.
  destruct (iterate _ _ _ _ st) as [[st' pr] effs']. simpl in *.
  apply Hnext; [lia | | done].
  intros k Hk. destruct (decide (k = i p)) as [->|Hne].
  - by rewrite lookup_insert_eq in Hk.
  - rewrite lookup_insert_ne in Hk by done.
    destruct (Hprivate k Hk) as [? _]. done.
Qed.

Lemma progress_inv_state (pr : progress) (st : ResolutionState) :
  progress_inv refs st0 pr st ->
  forall k, isLoading st k = true -> remote_at refs k \/ isLoading st0 k = true.
Proof.
  destruct pr as [p| |e]; simpl; [by intros [] | | done].
  intros Hnone k Hk. by rewrite Hnone in Hk.
Qed.

Lemma pass_states_inv (os : list Net.outcome) (pr : progress) (st : ResolutionState) :
  progress_inv refs st0 pr st ->
  Forall (fun st' => forall k, isLoading st' k = true ->
                               remote_at refs k \/ isLoading st0 k = true)
         (pass_states pr st os).
Proof.
  revert pr st. induction os as [|o os IH]; intros pr st Hinv.
  - assert (pass_states pr st [] = [st]) as -> by (by destruct pr).
    constructor; [by eapply progress_inv_state | constructor].
  - destruct pr as [p| |e]; simpl.
    + pose proof (resume_inv p st o Hinv) as Hnext.
      destruct (resume p o st) as [[st' pr'] effs]. simpl in Hnext.
      constructor; [by eapply (progress_inv_state (Awaiting p))|]. by apply IH.
    + constructor; [by eapply (progress_inv_state Completed) | constructor].
    + done.
Qed.

(** an item that is inline data loads only if it was loading before *)
Lemma inline_not_raised (st : ResolutionState) (k : nat) (ref : string) :
  (forall k, isLoading st k = true -> remote_at refs k \/ isLoading st0 k = true) ->
  refs !! k = Some ref -> isDataUrl ref = true ->
  isLoading st k = true -> isLoading st0 k = true.
Proof.
  intros Hst Href Hdata Hk.
  destruct (Hst k Hk) as [(ref' & Href' & Hremote)|]; [congruence | done].
Qed.

Hypothesis all_remote : Forall (fun ref => isDataUrl ref = false) refs.

Lemma remote_iterate (n : nat) (nft : gmap nat string) (nls : gmap nat bool)
    (st : ResolutionState) :
  n <= length refs ->
  (forall k, nls !! k = if decide (k < n) then Some false else None) ->
  (forall k, n <= k -> isLoading st k = isLoading st0 k) ->
  remote_inv refs st0 (iterate (VString <$> refs) n nft nls st).1.2
             (iterate (VString <$> refs) n nft nls st).1.1 n.
Proof.
  intros Hn Hnls Hst. unfold iterate. rewrite list_lookup_fmap.
  destruct (refs !! n) as [ref|] eqn:Href; simpl.
  - apply lookup_lt_Some in Href as Hlt.
    rewrite Forall_lookup in all_remote. rewrite (all_remote n ref Href). simpl.
    split; [done|]. split; [done|]. split; [done|]. split.
    + intros k. destruct (decide (k = n)) as [->|Hne].
      * by rewrite lookup_insert_eq.
      * by rewrite lookup_insert_ne, Hnls.
    + intros k. rewrite isLoading_union.
      destruct (decide (k = n)) as [->|Hne].
      * by rewrite lookup_insert_eq.
      * rewrite lookup_insert_ne, Hnls by done.
        destruct (decide (k < n)); [done|]. apply Hst. lia.
  - apply lookup_ge_None in Href. split; [lia|].
    intros k. unfold isLoading. simpl. rewrite Hnls. by destruct (decide _).
Qed.

Lemma remote_resume (p : Pass) (st : ResolutionState) (o : Net.outcome) (n : nat) :
  remote_inv refs st0 (Awaiting p) st n ->
  remote_inv refs st0 (resume p o st).1.2 (resume p o st).1.1 (S n).
Proof.
  intros (Hfiles & Hi & Hn & Hprivate & Hst). unfold resume.
  rewrite Hfiles, list_lookup_fmap, Hi.
  destruct (refs !! n) as [ref|] eqn:Href;
    [|apply lookup_ge_None in Href; lia]. simpl.
  destruct (determineFileType_string ref o) as (r & effs & Hr).
  simpl in Hr. rewrite Hr.
  pose proof (remote_iterate (S n) (<[n := r]> (newFileTypes p))
                (<[n := false]> (newLoadingStates p)) st) as Hnext.
  destruct (iterate _ _ _ _ st) as [[st' pr] effs']. simpl in *.
  apply Hnext; [lia | |].
  - intros k. destruct (decide (k = n)) as [->|Hne].
    + rewrite lookup_insert_eq. by rewrite decide_True by lia.
    + rewrite lookup_insert_ne, Hprivate by done.
      rewrite (decide_False (P := k = n)) by done.
      destruct (decide (k < n)), (decide (k < S n)); done || lia.
  - intros k Hk. rewrite Hst.
    rewrite decide_False by lia. by rewrite decide_False by lia.
Qed.

Lemma remote_inv_here (pr : progress) (st : ResolutionState) (n : nat) :
  remote_inv refs st0 pr st n ->
  (n < length refs /\ flags_at st0 n st) \/ (n = length refs /\ none_loading st).
Proof.
  destruct pr as [p| |e]; simpl; [|tauto|done].
  intros (_ & _ & ? & _ & ?). by left.
Qed.

Lemma remote_pass_states (os : list Net.outcome) (pr : progress)
    (st : ResolutionState) (n m : nat) (st' : ResolutionState) :
  remote_inv refs st0 pr st n ->
  pass_states pr st os !! m = Some st' ->
  (n + m < length refs /\ flags_at st0 (n + m) st') \/
  (n + m = length refs /\ none_loading st').
Proof.
  revert pr st n m. induction os as [|o os IH]; intros pr st n m Hinv Hm.
  - assert (pass_states pr st [] = [st]) as Heq by (by destruct pr).
    rewrite Heq in Hm. destruct m as [|m]; [|done]. simplify_eq/=.
    rewrite Nat.add_0_r. by eapply remote_inv_here.
  - destruct m as [|m].
    { assert (st' = st) as -> by (destruct pr; simpl in Hm; by simplify_eq).
      rewrite Nat.add_0_r. by eapply remote_inv_here. }
    destruct pr as [p| |e]; simpl in Hm; [|done|done].
    pose proof (remote_resume p st o n Hinv) as Hnext.
    destruct (resume p o st) as [[st1 pr1] effs]. simpl in Hnext, Hm.
    replace (n + S m) with (S n + m) by lia. by eapply IH.
Qed.

Lemma remote_pass_completes (os : list Net.outcome) (pr : progress)
    (st : ResolutionState) (n : nat) :
  remote_inv refs st0 pr st n ->
  length refs <= n + length os ->
  pass_progress pr st os = Completed /\
  exists st', last (pass_states pr st os) = Some st' /\ none_loading st'.
Proof.
  revert pr st n. induction os as [|o os IH]; intros pr st n Hinv Hlen.
  - destruct pr as [p| |e]; simpl in *; [lia | | done].
    split; [done|]. exists st. by destruct Hinv.
  - destruct pr as [p| |e]; simpl in *; [| |done].
    + pose proof (remote_resume p st o n Hinv) as Hnext.
      destruct (resume p o st) as [[st1 pr1] effs]. simpl in Hnext.
      destruct (IH pr1 st1 (S n) Hnext) as (Hdone & st' & Hlast & Hnone); [lia|].
      split; [done|]. exists st'. split; [|done].
      rewrite last_cons, Hlast. done.
    + split; [done|]. exists st. by destruct Hinv.
Qed.

Lemma pass_states_length (os : list Net.outcome)
    (pr : progress) (st : ResolutionState) (n : nat) :
  remote_inv refs st0 pr st n ->
  length (pass_states pr st os) = S (length os `min` (length refs - n)).
Proof.
  revert pr st n.
  induction os as [|o os IH]; intros pr st n Hinv.
  - by destruct pr.
  - destruct pr as [p| |e]; cbn -[Nat.min Nat.sub] in *; [| |done].
    + pose proof (remote_resume p st o n Hinv) as Hnext.
      destruct Hinv as (_ & _ & Hn & _).
      destruct (resume p o st) as [[st1 pr1] effs]. cbn -[Nat.min Nat.sub] in *.
      rewrite (IH pr1 st1 (S n) Hnext). lia.
    + destruct Hinv as [-> _]. lia.
Qed.

Lemma iterate_requests (n : nat) (ref : string) (nft : gmap nat string)
    (nls : gmap nat bool) (st : ResolutionState) :
  refs !! n = Some ref ->
  requests (iterate (VString <$> refs) n nft nls st).2
  = if Str.truthy ref then [probe_request ref] else [].
Proof.
  intros Href. unfold iterate. rewrite list_lookup_fmap, Href. simpl.
  rewrite Forall_lookup in all_remote. rewrite (all_remote n ref Href). simpl.
  rewrite ?(all_remote n ref Href). by destruct (Str.truthy ref).
Qed.

Lemma resume_requests (p : Pass) (st : ResolutionState) (o : Net.outcome)
    (n : nat) (ref : string) :
  remote_inv refs st0 (Awaiting p) st n ->
  refs !! S n = Some ref ->
  requests (resume p o st).2 = if Str.truthy ref then [probe_request ref] else [].
Proof.
  intros (Hfiles & Hi & Hn & _ & _) Href. unfold resume.
  rewrite Hfiles, list_lookup_fmap, Hi.
  destruct (refs !! n) as [ref0|] eqn:Href0;
    [|apply lookup_ge_None in Href0; lia]. simpl.
  assert (requests (settled (determineFileType (VString ref0)) o).2 = []) as Hquiet.
  { simpl. destruct (isDataUrl ref0); [done|].
    destruct (Str.truthy ref0); [|done].
    destruct o as [response|error]; simpl; [done|]. by destruct (decide _). }
  destruct (determineFileType_string ref0 o) as (r & effs & Hr).
  simpl in Hr, Hquiet. rewrite Hr in Hquiet |- *.
  pose proof (iterate_requests (S n) ref (<[n := r]> (newFileTypes p))
                (<[n := false]> (newLoadingStates p)) st Href) as Hnext.
  destruct (iterate _ _ _ _ st) as [[st' pr] effs']. simpl in *.
  unfold requests in *. by rewrite omap_app, Hquiet, Hnext.
Qed.

Lemma remote_pass_does (os : list Net.outcome) (pr : progress)
    (st : ResolutionState) (n m : nat) (ref : string) :
  remote_inv refs st0 pr st n ->
  refs !! S (n + m) = Some ref ->
  m < length os ->
  exists effs, pass_does pr st os !! m = Some effs /\
               requests effs = if Str.truthy ref then [probe_request ref] else [].
Proof.
  revert pr st n m. induction os as [|o os IH]; intros pr st n m Hinv Href Hm;
    [simpl in Hm; lia|].
  apply lookup_lt_Some in Href as Hlt.
  destruct pr as [p| |e]; simpl in Hinv; [|lia|done].
  pose proof (remote_resume p st o n Hinv) as Hnext.
  pose proof (fun ref => resume_requests p st o n ref Hinv) as Hreq.
  simpl. destruct (resume p o st) as [[st1 pr1] effs]. simpl in Hnext, Hreq.
  destruct m as [|m].
  - exists effs. split; [done|]. apply Hreq. by rewrite Nat.add_0_r in Href.
  - simpl. apply (IH pr1 st1 (S n) m Hnext).
    + by replace (S n + m) with (n + S m) by lia.
    + simpl in Hm. lia.
Qed.

End OnePass.

Lemma flags_at_only_loading (st0 : ResolutionState) (n : nat) (st : ResolutionState) :
  none_loading st0 -> flags_at st0 n st -> only_loading n st.
Proof.
  intros Hnone Hflags k. rewrite Hflags.
  destruct (decide (k = n)); [done|].
  destruct (decide (k < n)); [done|]. by rewrite Hnone.
Qed.

Lemma only_loading_at_most_one (n : nat) (st : ResolutionState) :
  only_loading n st -> at_most_one_loading st.
Proof. intros Hn k k' Hk Hk'. apply Hn in Hk, Hk'. congruence. Qed.

Lemma none_loading_at_most_one (st : ResolutionState) :
  none_loading st -> at_most_one_loading st.
Proof. intros Hn k k' Hk. by rewrite Hn in Hk. Qed.

(** C2, amended: let one call of [updateFileTypes] run on a list of references,
    with no other call in flight.  The call never raises the flag of an
    item that is inline data: such an item is loading only if it was when
    the call was made, so never when nothing was loading then.  When all
    the references are remote, the items are probed one after the other:
    while the item of index [n] is awaited, its flag is up and the flags
    of the indices before it are down (the flag of an index goes up before
    its probe and is down before the next index is probed); the request
    for the item of index [n] is made at the call for [n = 0] and at the
    settlement of the item before it otherwise, and no other request is
    made then; once every probe has settled the call is complete and no
    index is loading; and when nothing was loading at the call, at most
    one index is loading at every value the state takes. *)
Theorem sequencer_loading (host : Host) (refs : list string)
    (st : ResolutionState) (os : list Net.outcome) :
  (forall (st' : ResolutionState) (k : nat) (ref : string),
      st' ∈ updateFileTypes_states (references refs) st os ->
      refs !! k = Some ref -> isDataUrl ref = true ->
      isLoading st' k = true -> isLoading st k = true) /\
  (forall (st' : ResolutionState) (k : nat) (ref : string),
      none_loading st ->
      st' ∈ updateFileTypes_states (references refs) st os ->
      refs !! k = Some ref -> isDataUrl ref = true ->
      isLoading st' k = false) /\
  (Forall (fun ref => isDataUrl ref = false) refs ->
   (forall n : nat,
       n < length refs -> n <= length os ->
       exists st' : ResolutionState,
         updateFileTypes_states (references refs) st os !! S n = Some st' /\
         flags_at st n st' /\
         (none_loading st -> only_loading n st')) /\
   (forall (n : nat) (ref : string),
       refs !! n = Some ref -> n <= length os ->
       exists effs : list effect,
         updateFileTypes_does (references refs) st os !! n = Some effs /\
         requests effs = if Str.truthy ref then [probe_request ref] else []) /\
   (length refs <= length os ->
    updateFileTypes_progress (references refs) st os = Completed /\
    exists st' : ResolutionState,
      last (updateFileTypes_states (references refs) st os) = Some st' /\
      none_loading st') /\
   (none_loading st ->
    forall st' : ResolutionState,
      st' ∈ updateFileTypes_states (references refs) st os ->
      at_most_one_loading st')).
Proof.
  unfold updateFileTypes_states, updateFileTypes_progress, updateFileTypes_does,
    references, updateFileTypes.
  assert (Hinline : forall st' k ref,
            st' ∈ (let '(st1, pr, _) := iterate (VString <$> refs) 0 ∅ ∅ st in
                   st :: pass_states pr st1 os) ->
            refs !! k = Some ref -> isDataUrl ref = true ->
            isLoading st' k = true -> isLoading st k = true).
  { intros st' k ref Hin Href Hdata.
    pose proof (iterate_inv refs st 0 ∅ ∅ st) as Hinv.
    destruct (iterate _ 0 ∅ ∅ st) as [[st1 pr] effs]. simpl in Hinv.
    apply elem_of_cons in Hin as [->|Hin]; [done|].
    eapply inline_not_raised; [|done|done].
    assert (progress_inv refs st pr st1) as Hpr.
    { apply Hinv; [lia | done | by right]. }
    pose proof (pass_states_inv refs st os pr st1 Hpr) as Hall.
    rewrite Forall_forall in Hall. by apply Hall. }
  split; [exact Hinline|]. split.
  { intros st' k ref Hnone Hin Href Hdata.
    destruct (isLoading st' k) eqn:Hk; [|done].
    by rewrite <- (Hinline st' k ref Hin Href Hdata Hk), Hnone. }
  intros Hremote.
  pose proof (remote_iterate refs st Hremote 0 ∅ ∅ st) as Hinv.
  pose proof (fun ref => iterate_requests refs Hremote 0 ref ∅ ∅ st) as Hfirst.
  destruct (iterate _ 0 ∅ ∅ st) as [[st1 pr] effs]. simpl in Hinv, Hfirst.
  assert (remote_inv refs st pr st1 0) as Hpr.
  { apply Hinv; [lia | | done]. intros k. apply lookup_empty. }
  split; [|split; [|split]].
  - intros n Hn Hos.
    destruct (lookup_lt_is_Some_2 (pass_states pr st1 os) n) as [st' Hst'].
    { rewrite (pass_states_length refs st Hremote os pr st1 0 Hpr). lia. }
    exists st'. split; [done|].
    destruct (remote_pass_states refs st Hremote os pr st1 0 n st' Hpr Hst')
      as [[_ Hflags]|[Heq _]]; [|simpl in Heq; lia].
    split; [done|]. intros Hnone. by eapply flags_at_only_loading.
  - intros [|n] ref Href Hos.
    + exists effs. split; [done|]. by apply Hfirst.
    + simpl. apply (remote_pass_does refs st Hremote os pr st1 0 n ref Hpr Href). lia.
  - intros Hlen.
    destruct (remote_pass_completes refs st Hremote os pr st1 0 Hpr)
      as (Hdone & st' & Hlast & Hno); [simpl; lia|].
    split; [done|]. exists st'. split; [|done].
    rewrite last_cons, Hlast. done.
  - intros Hnone st' [->|Hin]%elem_of_cons; [by apply none_loading_at_most_one|].
    apply list_elem_of_lookup in Hin as [m Hm].
    destruct (remote_pass_states refs st Hremote os pr st1 0 m st' Hpr Hm)
      as [[_ Hflags]|[_ Hno]].
    + eapply only_loading_at_most_one. by eapply flags_at_only_loading.
    + by apply none_loading_at_most_one.
Qed.

(** The panel runs the call as [pass_states] has it: when one call is in
    flight and its probes settle, the panel goes through the states of the
    call. *)
Lemma states_idle `{Host} (os : list Net.outcome) (c : Component) (pass : nat)
    (st' : ResolutionState) :
  pending c !! pass = None ->
  st' ∈ states c (Settled pass <$> os) <-> st' = resolution c.
Proof.
  intros Hidle. revert st'. induction os as [|o os IH]; intros st'; simpl.
  - by rewrite list_elem_of_singleton.
  - rewrite Hidle. simpl. rewrite elem_of_cons, IH. tauto.
Qed.

Lemma states_pass `{Host} (os : list Net.outcome) (c : Component) (pass : nat)
    (p : Pass) (st' : ResolutionState) :
  pending c !! pass = Some p ->
  st' ∈ states c (Settled pass <$> os) <->
  st' ∈ pass_states (Awaiting p) (resolution c) os.
Proof.
  revert c p st'. induction os as [|o os IH]; intros c p st' Hp; [done|].
  simpl. rewrite Hp.
  destruct (resume p o (resolution c)) as [[st1 pr1] effs] eqn:Hresume.
  unfold with_resolution. simpl. rewrite !elem_of_cons.
  destruct pr1 as [p1| |e].
  - rewrite (IH _ p1) by (simpl; apply lookup_insert_eq). done.
  - rewrite states_idle by (simpl; apply lookup_delete_eq). simpl.
    assert (pass_states Completed st1 os = [st1]) as -> by (by destruct os).
    by rewrite list_elem_of_singleton.
  - rewrite states_idle by (simpl; apply lookup_delete_eq). simpl.
    assert (pass_states (Failed e) st1 os = [st1]) as -> by (by destruct os).
    by rewrite list_elem_of_singleton.
Qed.

(** In a panel created with a list of remote references, at most one
    index is loading while the probes settle. *)
Lemma panel_loading `{Host} (seed dis : bool) (a : Attr.t) (refs : list string)
    (os : list Net.outcome) (st' : ResolutionState) :
  files_statement (Some a) = Some (references refs) ->
  Forall (fun ref => isDataUrl ref = false) refs ->
  st' ∈ states (init seed dis (Some a)).1 (Settled 0 <$> os) ->
  at_most_one_loading st'.
Proof.
  intros Hfiles Hremote. unfold init, run_files_statement. simpl.
  rewrite Hfiles. unfold call_updateFileTypes, references, updateFileTypes. simpl.
  pose proof (remote_iterate refs (Resolution ∅ ∅) Hremote 0 ∅ ∅ (Resolution ∅ ∅))
    as Hinv.
  destruct (iterate _ 0 ∅ ∅ (Resolution ∅ ∅)) as [[st1 pr] effs]. simpl in Hinv.
  assert (remote_inv refs (Resolution ∅ ∅) pr st1 0) as Hpr.
  { apply Hinv; [lia | | done]. intros k. apply lookup_empty. }
  assert (Hcall : forall m st2, pass_states pr st1 os !! m = Some st2 ->
                                at_most_one_loading st2).
  { intros m st2 Hm.
    destruct (remote_pass_states refs (Resolution ∅ ∅) Hremote os pr st1 0 m st2 Hpr Hm)
      as [[_ Hflags]|[_ Hno]].
    - eapply only_loading_at_most_one, flags_at_only_loading; [|done].
      intros idx. unfold isLoading. simpl. by rewrite lookup_empty.
    - by apply none_loading_at_most_one. }
  unfold with_resolution. destruct pr as [p| |e]; simpl.
  - rewrite states_pass by (simpl; apply lookup_insert_eq). simpl.
    intros [m Hm]%list_elem_of_lookup. by eapply Hcall.
  - rewrite states_idle by (simpl; apply lookup_empty). simpl. intros ->.
    apply (Hcall 0). by destruct os.
  - done.
Qed.

Lemma none_loading_fresh : none_loading (Resolution ∅ ∅).
Proof. intros idx. unfold isLoading. simpl. by rewrite lookup_empty. Qed.

Lemma sequencer_loading_witness :
  none_loading (Resolution ∅ ∅) /\
  Forall (fun ref => isDataUrl ref = false) ["/a.png"; "/b.pdf"] /\
  (exists st' : ResolutionState,
      @updateFileTypes_states example_host (references ["/a.png"; "/b.pdf"])
        (Resolution ∅ ∅) [png_response; network_failure] !! 2 = Some st' /\
      only_loading 1 st') /\
  @updateFileTypes_progress example_host (references ["/a.png"; "/b.pdf"])
    (Resolution ∅ ∅) [png_response; network_failure] = Completed.
Proof.
  assert (H1 : none_loading (Resolution ∅ ∅)) by exact none_loading_fresh.
  assert (H2 : Forall (fun ref => isDataUrl ref = false) ["/a.png"; "/b.pdf"]).
  { repeat constructor. }
  destruct (sequencer_loading example_host ["/a.png"; "/b.pdf"] (Resolution ∅ ∅)
              [png_response; network_failure]) as (_ & _ & Hremote).
  destruct (Hremote H2) as (Hawait & _ & Hdone & _).
  split; [exact H1|]. split; [exact H2|]. split.
  - destruct (Hawait 1) as (st' & Hst' & _ & Honly); [simpl; lia | simpl; lia |].
    exists st'. split; [exact Hst' | exact (Honly H1)].
  - apply Hdone. simpl. lia.
Defined.

(** ** Superseded calls *)

Lemma reachable_run `{Host} (c : Component) (es : list event) :
  reachable c -> reachable (run c es).1.
Proof.
  revert c. induction es as [|e es IH]; intros c Hc; [done|]. simpl.
  pose proof (reachable_step c e Hc) as Hnext.
  destruct (step c e) as [c' effs]. simpl in Hnext.
  specialize (IH c' Hnext). by destruct (run c' es) as [c'' effs'].
Qed.

(** C2, as stated, fails when the list is assigned while a call is in
    flight.  In [overlap_scene] the panel has a list of three remote
    references; the probes of the first two have settled and the third is
    awaited when the attributes are assigned again.  The new call raises
    the flag of the first item and line 163 merges it over the flags that
    are there: the first and the third item are loading together. *)
Lemma overlapping_calls_counterexample :
  @reachable example_host overlap_scene /\
  @files_statement example_host (Some call_with_three)
  = Some (references ["/a.png"; "/b.png"; "/c.png"]) /\
  Forall (fun ref => isDataUrl ref = false) ["/a.png"; "/b.png"; "/c.png"] /\
  isLoading (resolution overlap_scene) 0 = true /\
  isLoading (resolution overlap_scene) 2 = true /\
  ~ at_most_one_loading (resolution overlap_scene).
Proof.
  assert (isLoading (resolution overlap_scene) 0 = true) as H0
    by (vm_compute; reflexivity).
  assert (isLoading (resolution overlap_scene) 2 = true) as H2
    by (vm_compute; reflexivity).
  split; [apply reachable_run, reachable_init|].
  split; [vm_compute; reflexivity|].
  split; [repeat constructor|].
  split; [exact H0|]. split; [exact H2|].
  intros Hone. specialize (Hone 0 2 H0 H2). discriminate.
Qed.

(** C3, as stated, fails.  In [stale_scene] the current list is the one
    document, the call for it has completed and recorded its type, and the
    call for the former list is still in flight; when its probe settles it
    replaces the recorded type by the type of the former file.  In
    [merge_scene] no older call is in flight, yet while the call for the
    list of one document runs the state still holds the type and the flag
    of index 1 of the former list of two. *)
Lemma superseded_write_counterexample :
  @reachable example_host stale_scene /\
  attributes stale_scene = Some call_with_pdf /\
  superseded stale_scene 0 /\
  fileTypes (resolution stale_scene) !! 0 = Some "application/pdf" /\
  fileTypes (resolution (@step example_host stale_scene (Settled 0 png_response)).1) !! 0
    = Some "image/png" /\
  @reachable example_host merge_scene /\
  @decoded_files example_host (attributes merge_scene) = VArray [VString "/b.pdf"] /\
  (forall pass : nat, is_Some (pending merge_scene !! pass) -> pass = 1) /\
  fileTypes (resolution merge_scene) !! 1 = Some "image/png" /\
  loadingFileTypes (resolution merge_scene) !! 1 = Some false.
Proof.
  split; [apply reachable_run, reachable_init|].
  split; [reflexivity|].
  split; [split; [by eexists | vm_compute; lia]|].
  split; [reflexivity|]. split; [reflexivity|].
  split; [apply reachable_run, reachable_init|].
  split; [vm_compute; reflexivity|].
  split; [|split; reflexivity].
  intros pass Hpass. destruct (decide (pass = 1)) as [|Hne]; [done|].
  replace (pending merge_scene) with
    (<[1 := Build_Pass [VString "/b.pdf"] 0 ∅ {[0 := true]}]> (∅ : gmap nat Pass))
    in Hpass by (vm_compute; reflexivity).
  rewrite lookup_insert_ne, lookup_empty in Hpass by done.
  by destruct Hpass.
Qed.

Lemma iterate_wf `{Host} (items : list value) (n : nat)
    (nft : gmap nat string) (nls : gmap nat bool) (st : ResolutionState) (p : Pass) :
  (forall k, is_Some (nft !! k) <-> k < n) ->
  (forall k, k < n -> nls !! k = Some false) ->
  (forall k, n <= k -> nls !! k = None) ->
  (iterate items n nft nls st).1.2 = Awaiting p ->
  pass_wf p.
Proof.
  intros Htypes Hlow Hbeyond. unfold iterate.
  destruct (items !! n) as [file|] eqn:Hfile; simpl; [|done].
  apply lookup_lt_Some in Hfile.
  destruct (isDataUrl_item file) as [[]|e]; simpl; [| |done];
    intros [= <-]; split; simpl; try done.
  - intros k Hk. apply Hbeyond. lia.
  - intros k Hk. rewrite lookup_insert_ne by lia. by apply Hlow.
  - intros k Hk. rewrite lookup_insert_ne by lia. apply Hbeyond. lia.
Qed.

Lemma iterate_completed `{Host} (items : list value) (n : nat)
    (nft : gmap nat string) (nls : gmap nat bool) (st : ResolutionState) :
  (iterate items n nft nls st).1.2 = Completed ->
  length items <= n /\
  forall st', iterate items n nft nls st' = (Resolution nft nls, Completed, []).
Proof.
  unfold iterate. destruct (items !! n) as [file|] eqn:Hfile; simpl.
  - by destruct (isDataUrl_item file) as [[]|e].
  - intros _. by apply lookup_ge_None in Hfile.
Qed.

Lemma resume_wf `{Host} (p p' : Pass) (o : Net.outcome) (st : ResolutionState) :
  pass_wf p ->
  (resume p o st).1.2 = Awaiting p' ->
  pass_wf p'.
Proof.
  intros [Hindex Htypes Hlow Hbeyond]. unfold resume.
  destruct (files p !! i p) as [file|]; [|done].
  destruct (settled (determineFileType file) o) as [[r|e] effs]; [|done].
  pose proof (iterate_wf (files p) (S (i p)) (<[i p := r]> (newFileTypes p))
                (<[i p := false]> (newLoadingStates p)) st p') as Hnext.
  destruct (iterate _ _ _ _ st) as [[st' pr] effs']. simpl in *.
  apply Hnext.
  - intros k. destruct (decide (k = i p)) as [->|Hne].
    + rewrite lookup_insert_eq. split; [lia | by eexists].
    + rewrite lookup_insert_ne, Htypes by done. lia.
  - intros k Hk. destruct (decide (k = i p)) as [->|Hne].
    + by rewrite lookup_insert_eq.
    + rewrite lookup_insert_ne by done. apply Hlow. lia.
  - intros k Hk. rewrite lookup_insert_ne by lia. apply Hbeyond. lia.
Qed.

Lemma resume_completed `{Host} (p : Pass) (o : Net.outcome) (st : ResolutionState) :
  pass_wf p ->
  (resume p o st).1.2 = Completed ->
  S (i p) = length (files p) /\
  exists r effs,
    forall st',
      resume p o st' =
      (Resolution (<[i p := r]> (newFileTypes p))
                  (<[i p := false]> (newLoadingStates p)), Completed, effs).
Proof.
  intros [Hindex Htypes Hlow Hbeyond]. unfold resume.
  destruct (files p !! i p) as [file|] eqn:Hfile;
    [|apply lookup_ge_None in Hfile; lia].
  destruct (settled (determineFileType file) o) as [[r|e] effs]; [|done].
  pose proof (iterate_completed (files p) (S (i p)) (<[i p := r]> (newFileTypes p))
                (<[i p := false]> (newLoadingStates p)) st) as Hnext.
  destruct (iterate _ _ _ _ st) as [[st1 pr] effs1] eqn:Hiter. simpl in *.
  intros ->. destruct Hnext as [Hlen Hany]; [done|].
  split; [lia|]. exists r, effs. intros st'. by rewrite Hany, app_nil_r.
Qed.

Lemma call_updateFileTypes_ok `{Host} (files : value) (c : Component) :
  pending_ok c -> pending_ok (call_updateFileTypes files c).1.
Proof.
  intros [Hwf Hfresh]. unfold call_updateFileTypes.
  assert (Hnew : forall p, (updateFileTypes files (resolution c)).1.2 = Awaiting p ->
                           pass_wf p).
  { intros p. destruct files; simpl; try done; apply iterate_wf.
    all: intros k; rewrite ?lookup_empty; try lia; try done.
    all: split; [by intros [] | lia]. }
  destruct (updateFileTypes files (resolution c)) as [[st pr] effs].
  unfold with_resolution, pending_ok.
  destruct pr as [q| |e]; cbn in *;
    [|split; [done | intros pass Hp%Hfresh; lia]..].
  split.
  - intros pass p. destruct (decide (pass = started c)) as [->|Hne].
    + rewrite lookup_insert_eq. intros [= <-]. by apply Hnew.
    + rewrite lookup_insert_ne by done. apply Hwf.
  - intros pass. destruct (decide (pass = started c)) as [->|Hne]; [lia|].
    rewrite lookup_insert_ne by done. intros Hp%Hfresh. lia.
Qed.

Lemma run_files_statement_ok `{Host} (c : Component) :
  pending_ok c -> pending_ok (run_files_statement c).1.
Proof.
  intros Hc. unfold run_files_statement.
  destruct (files_statement (attributes c)); [|done].
  by apply call_updateFileTypes_ok.
Qed.

Lemma step_ok `{Host} (c : Component) (e : event) :
  pending_ok c -> pending_ok (step c e).1.
Proof.
  intros Hc. destruct e as [|b|b|a|pass o|props]; simpl.
  - by destruct (disabled c).
  - by destruct (decide _).
  - done.
  - destruct a, (attributes c); try done; by apply run_files_statement_ok.
  - destruct (pending c !! pass) as [p|] eqn:Hp; [|done].
    destruct Hc as [Hwf Hfresh].
    pose proof (fun p' => resume_wf p p' o (resolution c) (Hwf _ _ Hp)) as Hnext.
    destruct (resume p o (resolution c)) as [[st pr] effs].
    unfold with_resolution, pending_ok.
    destruct pr as [p'| |err]; cbn in *.
    + split.
      * intros pass' q. destruct (decide (pass' = pass)) as [->|Hne].
        -- rewrite lookup_insert_eq. intros [= <-]. by apply Hnext.
        -- rewrite lookup_insert_ne by done. apply Hwf.
      * intros pass'. destruct (decide (pass' = pass)) as [->|Hne].
        -- intros _. apply Hfresh. by eexists.
        -- rewrite lookup_insert_ne by done. apply Hfresh.
    + split.
      * intros pass' q [_ Hq]%lookup_delete_Some. by eapply Hwf.
      * intros pass' [q [_ Hq]%lookup_delete_Some]. apply Hfresh. by exists q.
    + split.
      * intros pass' q [_ Hq]%lookup_delete_Some. by eapply Hwf.
      * intros pass' [q [_ Hq]%lookup_delete_Some]. apply Hfresh. by exists q.
  - pose proof (run_files_statement_ok
                  {| open := default (open c) (set_open props);
                     disabled := default (disabled c) (set_disabled props);
                     attributes := default (attributes c) (set_attributes props);
                     resolution := resolution c; pending := pending c;
                     started := started c |} Hc) as Hrun.
    destruct (set_attributes props) as [[a|]|]; [| destruct (attributes c) |];
      try done; by destruct (run_files_statement _).
Qed.

Lemma reachable_ok `{Host} (c : Component) : reachable c -> pending_ok c.
Proof.
  induction 1 as [seed dis a|c e Hc IH]; [|by apply step_ok].
  unfold init.
  set (c0 := {| open := seed; disabled := dis; attributes := a;
                resolution := Resolution ∅ ∅; pending := ∅; started := 0 |}).
  assert (pending_ok c0) as H0.
  { split; simpl; intros pass; rewrite lookup_empty; [done | by intros []]. }
  apply run_files_statement_ok in H0.
  by destruct (run_files_statement c0).
Qed.

(** C3, amended: a change of the decoded files list starts a call of
    [updateFileTypes] beside the calls still in flight, none of which is
    cancelled.  Every call, the latest or an older one, builds its maps in
    private and on completing replaces [fileTypes] and [loadingFileTypes]
    wholesale by them: the new state has a type for exactly the indices
    of the list of that call, a lowered flag for exactly those indices,
    and does not depend on the state before. *)
Theorem completion_replaces_state (host : Host) (c : Component) :
  reachable c ->
  (forall (a : option Attr.t) (pass : nat) (q : Pass),
      pending c !! pass = Some q ->
      pending (step c (SetAttributes a)).1 !! pass = Some q) /\
  (forall (pass : nat) (p : Pass) (o : Net.outcome),
      pending c !! pass = Some p ->
      (resume p o (resolution c)).1.2 = Completed ->
      (forall k : nat,
          loadingFileTypes (resolution (step c (Settled pass o)).1) !! k
          = if decide (k < length (files p)) then Some false else None) /\
      (forall k : nat,
          is_Some (fileTypes (resolution (step c (Settled pass o)).1) !! k)
          <-> k < length (files p)) /\
      (forall st : ResolutionState,
          (resume p o st).1.1 = resolution (step c (Settled pass o)).1) /\
      pending (step c (Settled pass o)).1 = delete pass (pending c)).
Proof.
  intros [Hwf Hfresh]%reachable_ok. split.
  - intros a pass q Hq.
    assert (Hkeep : forall c', pending c' = pending c -> started c' = started c ->
              pending (run_files_statement c').1 !! pass = Some q).
    { intros c' Hpending Hstarted. unfold run_files_statement.
      destruct (files_statement (attributes c')); [|simpl; by rewrite Hpending].
      unfold call_updateFileTypes, with_resolution.
      destruct (updateFileTypes _ _) as [[st pr] effs].
      destruct pr; cbn; rewrite ?Hpending; [|done..].
      rewrite lookup_insert_ne; [done|].
      rewrite Hstarted. assert (pass < started c) by (apply Hfresh; by eexists). lia. }
    simpl. destruct a, (attributes c); try done; by apply Hkeep.
  - intros pass p o Hp Hdone. simpl. rewrite Hp.
    destruct (resume_completed p o (resolution c) (Hwf _ _ Hp) Hdone)
      as (Hlast & r & effs & Hany).
    rewrite Hany. unfold with_resolution. cbn.
    destruct (Hwf _ _ Hp) as [Hindex Htypes Hlow Hbeyond].
    split; [|split; [|split; [|done]]].
    + intros k. destruct (decide (k = i p)) as [->|Hne].
      * rewrite lookup_insert_eq. by rewrite decide_True by lia.
      * rewrite lookup_insert_ne by done.
        destruct (decide (k < length (files p))).
        -- apply Hlow. lia.
        -- apply Hbeyond. lia.
    + intros k. destruct (decide (k = i p)) as [->|Hne].
      * rewrite lookup_insert_eq. split; [lia | by eexists].
      * rewrite lookup_insert_ne, Htypes by done. lia.
    + intros st. by rewrite Hany.
Qed.

Lemma completion_replaces_state_witness :
  @reachable example_host stale_scene /\
  pending stale_scene !! 0 = Some stale_pass /\
  (@resume example_host stale_pass png_response (resolution stale_scene)).1.2 = Completed /\
  (forall st : ResolutionState,
      (@resume example_host stale_pass png_response st).1.1
      = resolution (@step example_host stale_scene (Settled 0 png_response)).1).
Proof.
  assert (H1 : @reachable example_host stale_scene)
    by apply reachable_run, reachable_init.
  assert (H2 : pending stale_scene !! 0 = Some stale_pass) by reflexivity.
  assert (H3 : (@resume example_host stale_pass png_response
                  (resolution stale_scene)).1.2 = Completed) by reflexivity.
  split; [exact H1|]. split; [exact H2|]. split; [exact H3|].
  exact (proj1 (proj2 (proj2
           (proj2 (completion_replaces_state example_host stale_scene H1)
                  0 stale_pass png_response H2 H3)))).
Defined.

(** * Further properties *)

(** ** Addresses (lines 88-94 and 126-132) *)

Lemma startsWith_app (s t p : string) :
  Str.startsWith s p = true -> Str.startsWith (s +:+ t) p = true.
Proof.
  revert s. induction p as [|a p IH]; intros s; simpl; [done|].
  destruct s as [|b s]; simpl; [done|].
  intros [Hab Hs]%andb_prop. by rewrite Hab, IH.
Qed.

Lemma startsWith_slash (s : string) :
  Str.startsWith s "/" = true -> exists t, s = String "/" t.
Proof.
  destruct s as [|b s]; [done|].
  cbn -[Ascii.eqb]. rewrite andb_true_r. intros <-%Ascii.eqb_eq. by eexists.
Qed.

Lemma getFullUrl_rooted `{Host} (t : string) :
  WEBUI_BASE_URL = "" \/ isAbsoluteUrl WEBUI_BASE_URL = true ->
  getFullUrl (WEBUI_BASE_URL +:+ String "/" t) = WEBUI_BASE_URL +:+ String "/" t.
Proof.
  intros [Hbase|Hbase]; unfold getFullUrl.
  - rewrite Hbase. done.
  - unfold isAbsoluteUrl in *. apply orb_prop in Hbase as [Hbase|Hbase];
      rewrite (startsWith_app _ _ _ Hbase); by rewrite ?orb_true_r.
Qed.

(** X1: [getFullUrl] leaves an inline-data reference and an absolute
    address as they are.  A relative reference is put behind the base
    address with one slash between them, whether it is written with a
    leading slash or without: both spellings give the same address. *)
Theorem getFullUrl_one_slash (host : Host) (url : string) :
  (isDataUrl url = true \/ isAbsoluteUrl url = true -> @getFullUrl host url = url) /\
  (isDataUrl url = false -> isAbsoluteUrl url = false ->
   Str.startsWith url "/" = false ->
   @getFullUrl host url = WEBUI_BASE_URL +:+ "/" +:+ url /\
   @getFullUrl host ("/" +:+ url) = @getFullUrl host url).
Proof.
  split.
  - intros Hurl. unfold getFullUrl.
    destruct Hurl as [-> | ->]; by rewrite ?orb_true_r.
  - intros Hdata Habs Hslash. unfold getFullUrl.
    rewrite Hdata, Habs, Hslash. done.
Qed.

Lemma getFullUrl_one_slash_witness :
  isDataUrl "files/a.png" = false /\ isAbsoluteUrl "files/a.png" = false /\
  Str.startsWith "files/a.png" "/" = false /\
  @getFullUrl development_host "files/a.png" = "https://h/files/a.png" /\
  @getFullUrl development_host "/files/a.png" = "https://h/files/a.png".
Proof.
  split; [reflexivity|]. split; [reflexivity|]. split; [reflexivity|].
  pose proof (proj2 (getFullUrl_one_slash development_host "files/a.png")
                eq_refl eq_refl eq_refl) as [H1 H2].
  split; [exact H1 | exact (eq_trans H2 H1)].
Defined.

(** X2: where the base address is empty (a production build) or is
    itself an absolute address, [getFullUrl] is idempotent: an address it
    has produced is not prefixed a second time. *)
Theorem getFullUrl_idempotent (host : Host) (url : string) :
  WEBUI_BASE_URL = "" \/ isAbsoluteUrl WEBUI_BASE_URL = true ->
  @getFullUrl host (@getFullUrl host url) = @getFullUrl host url.
Proof.
  intros Hbase. unfold getFullUrl at 2 3.
  destruct (isDataUrl url || isAbsoluteUrl url) eqn:Hurl.
  - unfold getFullUrl. by rewrite Hurl.
  - destruct (Str.startsWith url "/") eqn:Hslash.
    + apply startsWith_slash in Hslash as [t ->]. by apply getFullUrl_rooted.
    + by apply getFullUrl_rooted.
Qed.

Lemma getFullUrl_idempotent_witness :
  (@WEBUI_BASE_URL development_host = "" \/
   isAbsoluteUrl (@WEBUI_BASE_URL development_host) = true) /\
  @getFullUrl development_host (@getFullUrl development_host "a.png")
  = @getFullUrl development_host "a.png".
Proof.
  split; [right; reflexivity|].
  apply (getFullUrl_idempotent development_host "a.png"). right. reflexivity.
Defined.

(** ** The normalizer and the formatter (lines 63-85) *)

(** X3: whatever [parseJSONString] returns is reached from its argument
    by parsing some number of times in a row, and it is the end of that
    chain: either it is a value that [JSON.parse] rejects, or the call
    stack was used up, one level for each parse.  A result that
    [JSON.parse] rejects does not depend on the room on the stack: any
    call with at least as much room returns the same value. *)
Theorem parseJSONString_result :
  (forall (room : nat) (str r : value),
      parseJSONString (S room) str = Return r ->
      exists n, n <= room /\ unwraps n str r /\
        ((exists e, JSON.parse r = Throw e) \/
         (n = room /\ exists u, JSON.parse r = Return u))) /\
  (forall (room room' : nat) (str r : value) (e : exn),
      parseJSONString (S room) str = Return r ->
      JSON.parse r = Throw e ->
      room <= room' ->
      parseJSONString (S room') str = Return r).
Proof.
  assert (Hchain : forall (room : nat) (str r : value),
      parseJSONString (S room) str = Return r ->
      exists n, n <= room /\ unwraps n str r /\
        ((exists e, JSON.parse r = Throw e) \/
         (n = room /\ exists u, JSON.parse r = Return u))).
  { induction room as [|room IH]; intros str r.
    - simpl. destruct (JSON.parse str) as [parsed|e] eqn:Hstr; intros [= <-];
        exists 0; (split; [lia|]); (split; [constructor|]); eauto.
    - change (parseJSONString (S (S room)) str) with
        (match JSON.parse str with
         | Throw _ => Return str
         | Return parsed =>
             match parseJSONString (S room) parsed with
             | Return r => Return r
             | Throw _ => Return str
             end
         end).
      destruct (JSON.parse str) as [parsed|e] eqn:Hstr.
      + destruct (parseJSONString_returns room parsed) as [v Hv]. rewrite Hv.
        intros [= <-]. destruct (IH parsed v Hv) as (n & Hn & Hchain & Hend).
        exists (S n). split; [lia|]. split; [by econstructor|].
        destruct Hend as [Hend|[-> Hend]]; [by left | by right].
      + intros [= <-]. exists 0. split; [lia|]. split; [constructor|]. eauto. }
  split; [exact Hchain|].
  intros room room' str r e Hr He Hroom.
  destruct (Hchain room str r Hr) as (n & Hn & Hn' & _).
  apply parseJSONString_unwraps with n e; [done | done | lia].
Qed.

Lemma parseJSONString_result_witness :
  parseJSONString 3 (VString " [ true , null ] ") = Return (VArray [VBool true; VNull]) /\
  exists n, n <= 2 /\
    unwraps n (VString " [ true , null ] ") (VArray [VBool true; VNull]) /\
    ((exists e, JSON.parse (VArray [VBool true; VNull]) = Throw e) \/
     (n = 2 /\ exists u, JSON.parse (VArray [VBool true; VNull]) = Return u)).
Proof.
  split; [reflexivity|].
  apply (proj1 parseJSONString_result 2). reflexivity.
Defined.

(** X4: a value that [JSON.parse] gives back as it is (as [null],
    [true] and [false] are, the argument being turned into text first)
    ends no chain of parses: [parseJSONString] called on it, or on a text
    that leads to it, parses again and again until the call stack is used
    up, and then returns the value.  Every level of the stack is used,
    however much room there is. *)
Theorem parseJSONString_fixed_point (room : nat) (v : value) :
  JSON.parse v = Return v ->
  parseJSONString (S room) v = Return v /\
  (forall n, unwraps n v v) /\
  (forall n str, unwraps n str v -> n <= room ->
     parseJSONString (S room) str = Return v).
Proof.
  intros Hv.
  assert (forall room, parseJSONString (S room) v = Return v) as Hfixed.
  { clear room. induction room as [|room IH].
    - simpl. by rewrite Hv.
    - change (parseJSONString (S (S room)) v) with
        (match JSON.parse v with
         | Throw _ => Return v
         | Return parsed =>
             match parseJSONString (S room) parsed with
             | Return r => Return r
             | Throw _ => Return v
             end
         end).
      by rewrite Hv, IH. }
  split; [done|]. split.
  - induction n as [|n IH]; [constructor | by econstructor].
  - intros n. revert room. induction n as [|n IH]; intros room str Hn Hroom.
    + inversion Hn; subst. apply Hfixed.
    + inversion Hn as [|n' w u x Hw Hn']; subst.
      destruct room as [|room]; [lia|].
      change (parseJSONString (S (S room)) str) with
        (match JSON.parse str with
         | Throw _ => Return str
         | Return parsed =>
             match parseJSONString (S room) parsed with
             | Return r => Return r
             | Throw _ => Return str
             end
         end).
      rewrite Hw, (IH room u); [done | done | lia].
Qed.

Lemma parseJSONString_fixed_point_witness :
  JSON.parse VNull = Return VNull /\
  parseJSONString 3 VNull = Return VNull /\
  parseJSONString 3 (VString "null") = Return VNull.
Proof.
  assert (JSON.parse VNull = Return VNull) as Hnull by reflexivity.
  assert (unwraps 1 (VString "null") VNull) as Hchain
    by (eapply unwraps_parse; [reflexivity | constructor]).
  split; [exact Hnull|].
  pose proof (parseJSONString_fixed_point 2 VNull Hnull) as (H1 & _ & H2).
  split; [exact H1|]. apply (H2 1 _ Hchain). lia.
Defined.



(** ** One call of [updateFileTypes] on a list of strings (lines 134-172) *)

Section Types.
Context `{Host}.
Variable refs : list string.
Variable os : list Net.outcome.

Lemma resolved_at_beyond (k : nat) : length refs <= k -> resolved_at refs os k = None.
Proof.
  intros Hk. unfold resolved_at. by rewrite (proj2 (lookup_ge_None refs k)).
Qed.

Lemma types_iterate (n : nat) (nft : gmap nat string) (nls : gmap nat bool)
    (st : ResolutionState) :
  n <= length refs ->
  (forall k, nft !! k = if decide (k < n) then resolved_at refs os k else None) ->
  (forall k, k < n -> nls !! k = Some false) ->
  (forall k, n <= k -> nls !! k = None) ->
  types_inv refs os (iterate (VString <$> refs) n nft nls st).1.2
            (iterate (VString <$> refs) n nft nls st).1.1 n.
Proof.
  intros Hn Hnft Hlow Hhigh. unfold iterate. rewrite list_lookup_fmap.
  destruct (refs !! n) as [ref|] eqn:Href; simpl.
  - apply lookup_lt_Some in Href as Hlt.
    destruct (isDataUrl ref); simpl.
    + split_and!; try done. intros k Hk. apply Hhigh. lia.
    + split_and!; try done.
      * intros k Hk. rewrite lookup_insert_ne by lia. by apply Hlow.
      * intros k Hk. rewrite lookup_insert_ne by lia. apply Hhigh. lia.
  - apply lookup_ge_None in Href. split; [lia|]. split.
    + intros k. rewrite Hnft. destruct (decide (k < n)); [done|].
      symmetry. apply resolved_at_beyond. lia.
    + intros k. destruct (decide (k < length refs)).
      * apply Hlow. lia.
      * apply Hhigh. lia.
Qed.

Lemma types_resume (p : Pass) (st : ResolutionState) (o : Net.outcome) (n : nat) :
  types_inv refs os (Awaiting p) st n ->
  os !! n = Some o ->
  types_inv refs os (resume p o st).1.2 (resume p o st).1.1 (S n).
Proof.
  intros (Hfiles & Hi & Hn & Hnft & Hlow & Hhigh) Ho. unfold resume.
  rewrite Hfiles, list_lookup_fmap, Hi.
  destruct (refs !! n) as [ref|] eqn:Href;
    [|apply lookup_ge_None in Href; lia]. simpl.
  pose proof (determineFileType_string ref o) as (r & effs & Hr).
  assert (resolved ref o = r) as Hres by (unfold resolved; by rewrite Hr).
  simpl in Hr. rewrite Hr.
  pose proof (types_iterate (S n) (<[n := r]> (newFileTypes p))
                (<[n := false]> (newLoadingStates p)) st) as Hnext.
  destruct (iterate _ _ _ _ st) as [[st' pr] effs']. simpl in *.
  apply Hnext; [lia | | |].
  - intros k. destruct (decide (k = n)) as [->|Hk].
    + rewrite lookup_insert_eq, decide_True by lia.
      unfold resolved_at. by rewrite Href, Ho, Hres.
    + rewrite lookup_insert_ne, Hnft by done.
      destruct (decide (k < n)), (decide (k < S n)); done || lia.
  - intros k Hk. destruct (decide (k = n)) as [->|Hne].
    + by rewrite lookup_insert_eq.
    + rewrite lookup_insert_ne by done. apply Hlow. lia.
  - intros k Hk. rewrite lookup_insert_ne by lia. apply Hhigh. lia.
Qed.

Lemma types_pass (rest : list Net.outcome) (pr : progress)
    (st : ResolutionState) (n : nat) :
  length refs <= length os ->
  types_inv refs os pr st n ->
  drop n os = rest ->
  exists st', last (pass_states pr st rest) = Some st' /\
              types_inv refs os (pass_progress pr st rest) st' (length refs).
Proof.
  revert pr st n. induction rest as [|o rest IH]; intros pr st n Hos Hinv Hrest.
  - destruct pr as [p| |e]; simpl in *; [|by destruct Hinv as [-> ?]; eauto|done].
    destruct Hinv as (_ & _ & Hn & _).
    apply (f_equal length) in Hrest. rewrite length_drop in Hrest. simpl in Hrest. lia.
  - destruct pr as [p| |e]; simpl in Hinv |- *;
      [|by destruct Hinv as [-> ?]; eauto|done].
    assert (os !! n = Some o) as Ho.
    { rewrite <- (Nat.add_0_r n), <- lookup_drop, Hrest. done. }
    pose proof (types_resume p st o n Hinv Ho) as Hnext.
    destruct (resume p o st) as [[st1 pr1] effs]. simpl in Hnext.
    destruct (IH pr1 st1 (S n) Hos Hnext) as (st' & Hlast & Hend).
    { replace (S n) with (n + 1) by lia. by rewrite <- drop_drop, Hrest. }
    exists st'. split; [|done].
    destruct (pass_states pr1 st1 rest) eqn:Hstates; [|by rewrite last_cons, Hlast].
    by destruct pr1, rest.
Qed.

Lemma probed_requests (ref : string) :
  requests (called (determineFileType (VString ref)))
  = if probed ref then [probe_request ref] else [].
Proof.
  unfold probed. simpl. destruct (isDataUrl ref); [done|].
  by destruct (Str.truthy ref).
Qed.

Lemma settled_requests (ref : string) (o : Net.outcome) :
  requests (settled (determineFileType (VString ref)) o).2 = [].
Proof.
  simpl. destruct (isDataUrl ref); [done|].
  destruct (Str.truthy ref); [|done].
  destruct o as [response|error]; simpl; [done|]. by destruct (decide _).
Qed.

Lemma types_iterate_requests (n : nat) (nft : gmap nat string)
    (nls : gmap nat bool) (st : ResolutionState) :
  requests (iterate (VString <$> refs) n nft nls st).2
  = match refs !! n with
    | Some ref => if probed ref then [probe_request ref] else []
    | None => []
    end.
Proof.
  unfold iterate. rewrite list_lookup_fmap.
  destruct (refs !! n) as [ref|] eqn:Href; simpl; [|done].
  unfold probed. destruct (isDataUrl ref); simpl; [done|].
  by destruct (Str.truthy ref).
Qed.

Lemma requests_made_cons (effs : list effect) (does : list (list effect)) :
  requests_made (effs :: does) = requests effs ++ requests_made does.
Proof. done. Qed.

Lemma filter_drop_lookup (n : nat) :
  List.filter probed (drop n refs)
  = match refs !! n with
    | Some ref => (if probed ref then [ref] else []) ++ List.filter probed (drop (S n) refs)
    | None => []
    end.
Proof.
  destruct (refs !! n) as [ref|] eqn:Href.
  - rewrite (drop_S _ _ _ Href). simpl. by destruct (probed ref).
  - apply lookup_ge_None in Href. by rewrite drop_ge.
Qed.

Lemma types_pass_requests (rest : list Net.outcome) (pr : progress)
    (st : ResolutionState) (n : nat) :
  length refs <= length os ->
  types_inv refs os pr st n ->
  drop n os = rest ->
  requests_made (pass_does pr st rest)
  = probe_request <$> List.filter probed (drop (S n) refs).
Proof.
  revert pr st n. induction rest as [|o rest IH]; intros pr st n Hos Hinv Hrest.
  - destruct pr as [p| |e]; simpl in *; [|destruct Hinv as [-> ?]|done].
    + destruct Hinv as (_ & _ & Hn & _).
      apply (f_equal length) in Hrest. rewrite length_drop in Hrest. simpl in Hrest. lia.
    + by rewrite drop_ge by lia.
  - destruct pr as [p| |e]; simpl in Hinv |- *;
      [|destruct Hinv as [-> ?]; by rewrite drop_ge by lia|done].
    assert (os !! n = Some o) as Ho.
    { rewrite <- (Nat.add_0_r n), <- lookup_drop, Hrest. done. }
    pose proof (types_resume p st o n Hinv Ho) as Hnext.
    assert (requests (resume p o st).2
            = match refs !! S n with
              | Some ref => if probed ref then [probe_request ref] else []
              | None => []
              end) as Hreq.
    { destruct Hinv as (Hfiles & Hi & Hn & _). unfold resume.
      rewrite Hfiles, list_lookup_fmap, Hi.
      destruct (refs !! n) as [ref|] eqn:Href;
        [|apply lookup_ge_None in Href; lia]. simpl.
      pose proof (settled_requests ref o) as Hquiet.
      destruct (determineFileType_string ref o) as (r & effs & Hr).
      simpl in Hr, Hquiet. rewrite Hr in Hquiet |- *.
      pose proof (types_iterate_requests (S n) (<[n := r]> (newFileTypes p))
                    (<[n := false]> (newLoadingStates p)) st) as Hit.
      destruct (iterate _ _ _ _ st) as [[st' pr'] effs']. simpl in *.
      unfold requests in *. by rewrite omap_app, Hquiet, Hit. }
    destruct (resume p o st) as [[st1 pr1] effs]. simpl in Hnext, Hreq.
    rewrite requests_made_cons, Hreq, (IH pr1 st1 (S n) Hos Hnext).
    + rewrite (filter_drop_lookup (S n)).
      destruct (refs !! S n) as [ref|] eqn:Href.
      * rewrite fmap_app. by destruct (probed ref).
      * apply lookup_ge_None in Href. by rewrite drop_ge by lia.
    + replace (S n) with (n + 1) by lia. by rewrite <- drop_drop, Hrest.
Qed.

End Types.

Lemma resolved_cases `{Host} (ref : string) (o : Net.outcome) :
  resolved ref o =
  if isDataUrl ref then getDataUrlMimeType ref
  else if Str.truthy ref then
    match o with
    | Net.Fulfilled response =>
        default "" (Net.get (Net.headers response) "content-type")
    | Net.Rejected _ => ""
    end
  else "".
Proof.
  unfold resolved. simpl. destruct (isDataUrl ref); [done|].
  destruct (Str.truthy ref); [|done].
  destruct o as [response|error]; simpl; [|done].
  apply or_empty.
Qed.

(** X6: a call of [updateFileTypes] on a list of strings, once the
    awaited promises have settled, one for each item: the call has
    completed; [fileTypes] holds, for every index of the list and for no
    other, the type of the item there (the marker of an inline-data
    reference, the [content-type] of the response for a remote one, the
    empty string when the header is missing, the request failed or the
    item is the empty string); every flag of the list is lowered.  The
    state before the call leaves no trace. *)
Theorem updateFileTypes_result (host : Host) (refs : list string)
    (st : ResolutionState) (os : list Net.outcome) :
  length refs <= length os ->
  @updateFileTypes_progress host (references refs) st os = Completed /\
  exists st', last (@updateFileTypes_states host (references refs) st os) = Some st' /\
    (forall k, fileTypes st' !! k =
       match refs !! k, os !! k with
       | Some ref, Some o =>
           Some (if isDataUrl ref then getDataUrlMimeType ref
                 else if Str.truthy ref then
                   match o with
                   | Net.Fulfilled response =>
                       default "" (Net.get (Net.headers response) "content-type")
                   | Net.Rejected _ => ""
                   end
                 else "")
       | _, _ => None
       end) /\
    (forall k, loadingFileTypes st' !! k =
               if decide (k < length refs) then Some false else None).
Proof.
  intros Hos.
  pose proof (types_iterate refs os 0 ∅ ∅ st) as Hfirst.
  unfold updateFileTypes_progress, updateFileTypes_states, references, updateFileTypes.
  destruct (iterate (VString <$> refs) 0 ∅ ∅ st) as [[st1 pr1] effs] eqn:Hit.
  simpl in Hfirst.
  destruct (types_pass refs os os pr1 st1 0 Hos) as (st' & Hlast & Hend); [|done|].
  { apply Hfirst; [lia | | |]; intros k; rewrite ?lookup_empty; [|lia|done].
    by destruct (decide (k < 0)); [lia|]. }
  destruct (pass_progress pr1 st1 os) as [p| |e]; simpl in Hend;
    [destruct Hend as (_ & _ & ? & _); lia| |done].
  split; [done|]. exists st'. split.
  - destruct (pass_states pr1 st1 os) eqn:Hstates; [by destruct pr1, os|].
    by rewrite last_cons, Hlast.
  - destruct Hend as (_ & Htypes & Hflags). split; [|done].
    intros k. rewrite Htypes. unfold resolved_at.
    destruct (refs !! k) as [ref|]; [|done].
    destruct (os !! k) as [o|]; [|done].
    by rewrite resolved_cases.
Qed.

Lemma updateFileTypes_result_witness :
  length ["data:image/png;base64,AA=="; "/b.pdf"] <= length [network_failure; pdf_response] /\
  @updateFileTypes_progress example_host
    (references ["data:image/png;base64,AA=="; "/b.pdf"]) (Resolution ∅ ∅)
    [network_failure; pdf_response] = Completed.
Proof.
  split; [simpl; lia|].
  apply (updateFileTypes_result example_host
           ["data:image/png;base64,AA=="; "/b.pdf"] (Resolution ∅ ∅)
           [network_failure; pdf_response]).
  simpl. lia.
Defined.

(** X7: a call of [updateFileTypes] on a list of strings makes one
    request for every item that is neither an inline-data reference nor
    the empty string, in the order of the list, and no other request:
    inline data and empty strings never reach the network. *)
Theorem updateFileTypes_requests (host : Host) (refs : list string)
    (st : ResolutionState) (os : list Net.outcome) :
  length refs <= length os ->
  requests_made (@updateFileTypes_does host (references refs) st os)
  = @probe_request host <$> List.filter probed refs.
Proof.
  intros Hos.
  pose proof (types_iterate refs os 0 ∅ ∅ st) as Hfirst.
  pose proof (types_iterate_requests refs 0 ∅ ∅ st) as Hreq.
  unfold updateFileTypes_does, references, updateFileTypes.
  destruct (iterate (VString <$> refs) 0 ∅ ∅ st) as [[st1 pr1] effs] eqn:Hit.
  simpl in Hfirst, Hreq.
  rewrite requests_made_cons, Hreq, (types_pass_requests refs os os pr1 st1 0 Hos);
    [| |done].
  - destruct refs as [|ref refs']; simpl; [done|]. by destruct (probed ref).
  - apply Hfirst; [lia | | |]; intros k; rewrite ?lookup_empty; [|lia|done].
    by destruct (decide (k < 0)); [lia|].
Qed.

Lemma updateFileTypes_requests_witness :
  length ["data:image/png;base64,AA=="; "/b.pdf"; ""] <= length [network_failure; pdf_response; pdf_response] /\
  requests_made (@updateFileTypes_does example_host
    (references ["data:image/png;base64,AA=="; "/b.pdf"; ""]) (Resolution ∅ ∅)
    [network_failure; pdf_response; pdf_response])
  = [@probe_request example_host "/b.pdf"].
Proof.
  split; [simpl; lia|].
  apply (updateFileTypes_requests example_host
           ["data:image/png;base64,AA=="; "/b.pdf"; ""] (Resolution ∅ ∅)
           [network_failure; pdf_response; pdf_response]).
  simpl. lia.
Defined.

(** ** When a call of [updateFileTypes] assigns [fileTypes] *)

Lemma iterate_fileTypes `{Host} (items : list value) (n : nat)
    (nft : gmap nat string) (nls : gmap nat bool) (st : ResolutionState) :
  (iterate items n nft nls st).1.2 <> Completed ->
  fileTypes (iterate items n nft nls st).1.1 = fileTypes st.
Proof.
  unfold iterate. destruct (items !! n) as [file|]; [|done].
  by destruct (isDataUrl_item file) as [[]|].
Qed.

Lemma resume_fileTypes `{Host} (p : Pass) (o : Net.outcome) (st : ResolutionState) :
  (resume p o st).1.2 <> Completed ->
  fileTypes (resume p o st).1.1 = fileTypes st.
Proof.
  unfold resume. destruct (files p !! i p) as [file|]; [|done].
  destruct (settled (determineFileType file) o) as [[r|e] effs]; [|done].
  pose proof (iterate_fileTypes (files p) (S (i p)) (<[i p := r]> (newFileTypes p))
                (<[i p := false]> (newLoadingStates p)) st) as Hit.
  by destruct (iterate _ _ _ _ st) as [[st' pr] effs'].
Qed.

Lemma pass_fileTypes `{Host} (os : list Net.outcome) (pr : progress)
    (st : ResolutionState) (ft : gmap nat string) :
  (pr <> Completed -> fileTypes st = ft) ->
  (forall m st', pass_states pr st os !! m = Some st' ->
                 S m < length (pass_states pr st os) -> fileTypes st' = ft) /\
  (pass_progress pr st os <> Completed ->
   forall m st', pass_states pr st os !! m = Some st' -> fileTypes st' = ft).
Proof.
  revert pr st. induction os as [|o os IH]; intros pr st Hst.
  - assert (pass_states pr st [] = [st]) as -> by by destruct pr.
    assert (pass_progress pr st [] = pr) as -> by by destruct pr.
    split.
    + intros m st' _ Hm. simpl in Hm. lia.
    + intros Hpr [|m] st'; [|done]. intros [= <-]. by apply Hst.
  - destruct pr as [p| |e]; simpl.
    + pose proof (resume_fileTypes p o st) as Hnext.
      destruct (resume p o st) as [[st1 pr1] effs]. simpl in Hnext.
      destruct (IH pr1 st1) as [IH1 IH2].
      { intros Hpr. rewrite Hnext by done. by apply Hst. }
      split.
      * intros [|m] st'; simpl.
        -- intros [= <-] _. by apply Hst.
        -- intros Hm Hlen. apply (IH1 m); [done|lia].
      * intros Hpr [|m] st'; simpl.
        -- intros [= <-]. by apply Hst.
        -- by apply IH2.
    + split.
      * intros m st' _ Hm. simpl in Hm. lia.
      * done.
    + split.
      * intros m st' _ Hm. simpl in Hm. lia.
      * intros _ [|m] st'; [|done]. intros [= <-]. by apply Hst.
Qed.

Lemma updateFileTypes_fileTypes `{Host} (files : value) (st : ResolutionState) :
  (updateFileTypes files st).1.2 <> Completed ->
  fileTypes (updateFileTypes files st).1.1 = fileTypes st.
Proof.
  destruct files; simpl; try done; apply iterate_fileTypes.
Qed.

(** X8: a call of [updateFileTypes] assigns [fileTypes] once, when it
    completes: in every state before the last one [fileTypes] is what it
    was at the call, whatever the argument and however the promises
    settle, and in the last one too unless the call has completed.  The
    types of a list come out together; none is published while a later
    item is still awaited. *)
Theorem updateFileTypes_publishes (host : Host) (files : value)
    (st : ResolutionState) (os : list Net.outcome) :
  (forall m st',
      @updateFileTypes_states host files st os !! m = Some st' ->
      S m < length (@updateFileTypes_states host files st os) ->
      fileTypes st' = fileTypes st) /\
  (@updateFileTypes_progress host files st os <> Completed ->
   forall m st',
     @updateFileTypes_states host files st os !! m = Some st' ->
     fileTypes st' = fileTypes st).
Proof.
  pose proof (updateFileTypes_fileTypes files st) as Hfirst.
  unfold updateFileTypes_states, updateFileTypes_progress.
  destruct (updateFileTypes files st) as [[st1 pr1] effs]. simpl in Hfirst.
  destruct (pass_fileTypes os pr1 st1 (fileTypes st) Hfirst) as [H1 H2].
  split.
  - intros [|m] st'; simpl; [by intros [= <-]|].
    intros Hm Hlen. apply (H1 m); [done|lia].
  - intros Hpr [|m] st'; simpl; [by intros [= <-]|]. by apply H2.
Qed.

Lemma updateFileTypes_publishes_witness :
  @updateFileTypes_states example_host (references ["/a.png"; "/b.pdf"])
    (Resolution ∅ ∅) [png_response; pdf_response] !! 2
  = Some (Resolution ∅ {[0 := false; 1 := true]}) /\
  fileTypes (Resolution ∅ {[0 := false; 1 := true]}) = fileTypes (Resolution ∅ ∅).
Proof.
  assert (@updateFileTypes_states example_host (references ["/a.png"; "/b.pdf"])
            (Resolution ∅ ∅) [png_response; pdf_response] !! 2
          = Some (Resolution ∅ {[0 := false; 1 := true]})) as Hstate
    by (vm_compute; reflexivity).
  split; [exact Hstate|].
  apply (proj1 (updateFileTypes_publishes example_host (references ["/a.png"; "/b.pdf"])
                  (Resolution ∅ ∅) [png_response; pdf_response]) 2 _ Hstate).
  vm_compute. lia.
Defined.

(** ** An item that is not a string (lines 158-166 and 88-90) *)

Section Failing.
Context `{Host}.
Variable items : list value.
Variable n : nat.
Variable v : value.
Hypothesis at_n : items !! n = Some v.
Hypothesis not_string : not_a_string v.
Hypothesis strings_before : forall k, k < n -> exists ref, items !! k = Some (VString ref).

Lemma failing_iterate (m : nat) (nft : gmap nat string) (nls : gmap nat bool)
    (st : ResolutionState) :
  m <= n ->
  (forall ref, 0 < m -> m = n -> items !! (n - 1) = Some (VString ref) ->
               isDataUrl ref = false -> isLoading st (n - 1) = true) ->
  failing_inv items n (iterate items m nft nls st).1.2
              (iterate items m nft nls st).1.1 m.
Proof.
  intros Hm Hst. unfold iterate. destruct (decide (m = n)) as [->|Hne].
  - rewrite at_n. destruct v; try done; simpl; split_and!; try done;
      intros ref Hn; by apply Hst.
  - destruct (strings_before m) as [ref Href]; [lia|]. rewrite Href. simpl.
    destruct (isDataUrl ref) eqn:Hdata; simpl.
    + split_and!; try done; [lia|]. intros ref' Href'. congruence.
    + split_and!; try done; [lia|]. intros _ _ _.
      rewrite isLoading_union, lookup_insert_eq. done.
Qed.

Lemma failing_resume (p : Pass) (st : ResolutionState) (o : Net.outcome) (m : nat) :
  failing_inv items n (Awaiting p) st m ->
  failing_inv items n (resume p o st).1.2 (resume p o st).1.1 (S m).
Proof.
  intros (Hfiles & Hi & Hm & Hst). unfold resume. rewrite Hfiles, Hi.
  destruct (strings_before m Hm) as [ref Href]. rewrite Href.
  destruct (determineFileType_string ref o) as (r & effs & Hr). rewrite Hr.
  pose proof (failing_iterate (S m) (<[m := r]> (newFileTypes p))
                (<[m := false]> (newLoadingStates p)) st) as Hnext.
  destruct (iterate _ _ _ _ st) as [[st' pr] effs']. simpl in *.
  apply Hnext; [lia|]. intros ref' _ Heq.
  assert (n - 1 = m) as -> by lia. apply Hst.
Qed.

Lemma failing_pass (os : list Net.outcome) (pr : progress)
    (st : ResolutionState) (m : nat) :
  failing_inv items n pr st m ->
  n - m <= length os ->
  exists st', last (pass_states pr st os) = Some st' /\
              failing_inv items n (pass_progress pr st os) st' n.
Proof.
  revert pr st m. induction os as [|o os IH]; intros pr st m Hinv Hos.
  - destruct pr as [p| |e]; simpl in *; [|done|].
    + destruct Hinv as (_ & _ & Hm & _). lia.
    + exists st. split; [done|]. by destruct Hinv as (-> & -> & ?).
  - destruct pr as [p| |e]; simpl in Hinv |- *; [|done|].
    + pose proof (failing_resume p st o m Hinv) as Hnext.
      destruct Hinv as (_ & _ & Hm & _).
      destruct (resume p o st) as [[st1 pr1] effs]. simpl in Hnext.
      destruct (IH pr1 st1 (S m) Hnext) as (st' & Hlast & Hend);
        [simpl in Hos; lia|].
      exists st'. split; [|done].
      destruct (pass_states pr1 st1 os) eqn:Hstates; [by destruct pr1, os|].
      by rewrite last_cons, Hlast.
    + exists st. split; [done|]. by destruct Hinv as (-> & -> & ?).
Qed.

End Failing.

(** X9: a list in which the item of index [n] is the first that is not a
    string.  Once the items before it have settled the call of
    [updateFileTypes] fails with a [TypeError], raised by [isDataUrl] in
    line 161.  [fileTypes] is never assigned, so the types gathered for
    the items before are lost; and when the item just before is a remote
    reference, its loading flag, lowered only in the private copy, stays
    raised in [loadingFileTypes]. *)
Theorem updateFileTypes_not_a_string (host : Host) (items : list value) (n : nat)
    (v : value) (st : ResolutionState) (os : list Net.outcome) :
  items !! n = Some v ->
  not_a_string v ->
  (forall k, k < n -> exists ref, items !! k = Some (VString ref)) ->
  n <= length os ->
  @updateFileTypes_progress host (VArray items) st os = Failed TypeError /\
  (forall m st', @updateFileTypes_states host (VArray items) st os !! m = Some st' ->
                 fileTypes st' = fileTypes st) /\
  (forall ref, 0 < n -> items !! (n - 1) = Some (VString ref) ->
               isDataUrl ref = false ->
               exists st', last (@updateFileTypes_states host (VArray items) st os) = Some st' /\
                           isLoading st' (n - 1) = true).
Proof.
  intros Hv Hnot Hbefore Hos.
  pose proof (failing_iterate items n v Hv Hnot Hbefore 0 ∅ ∅ st) as Hfirst.
  pose proof (iterate_fileTypes items 0 ∅ ∅ st) as Hkept.
  unfold updateFileTypes_states, updateFileTypes_progress, updateFileTypes.
  destruct (iterate items 0 ∅ ∅ st) as [[st1 pr1] effs]. simpl in Hfirst, Hkept.
  destruct (pass_fileTypes os pr1 st1 (fileTypes st) Hkept) as [_ Hft].
  destruct (failing_pass items n v Hv Hnot Hbefore os pr1 st1 0) as (st' & Hlast & Hend);
    [apply Hfirst; [lia|]; intros; lia | lia |].
  destruct (pass_progress pr1 st1 os) as [p| |e]; simpl in Hend;
    [destruct Hend as (_ & _ & ? & _); lia | done |].
  destruct Hend as (-> & _ & Hflag).
  split; [done|]. split.
  { intros [|m] st2; simpl; [by intros [= <-]|]. by apply Hft. }
  intros ref Hn Href Hdata. exists st'. split; [|by eapply Hflag].
  destruct (pass_states pr1 st1 os) eqn:Hstates; [by destruct pr1, os|].
  by rewrite last_cons, Hlast.
Qed.

Lemma updateFileTypes_not_a_string_witness :
  [VString "/a.png"; VNull] !! 1 = Some VNull /\
  not_a_string VNull /\
  @updateFileTypes_progress example_host (VArray [VString "/a.png"; VNull])
    (Resolution ∅ ∅) [png_response] = Failed TypeError /\
  exists st', last (@updateFileTypes_states example_host (VArray [VString "/a.png"; VNull])
                      (Resolution ∅ ∅) [png_response]) = Some st' /\
              isLoading st' 0 = true.
Proof.
  assert (forall k, k < 1 -> exists ref,
            [VString "/a.png"; VNull] !! k = Some (VString ref)) as Hbefore.
  { intros k Hk. exists "/a.png". destruct k as [|k]; [reflexivity|lia]. }
  pose proof (updateFileTypes_not_a_string example_host [VString "/a.png"; VNull] 1
                VNull (Resolution ∅ ∅) [png_response] eq_refl I Hbefore (le_n 1))
    as (Hfail & _ & Hflag).
  split; [reflexivity|]. split; [exact I|]. split; [exact Hfail|].
  apply (Hflag "/a.png"); [lia | reflexivity | reflexivity].
Defined.

(** ** What the dispatcher shows (lines 335-404) *)

Lemma getFullUrl_inline `{Host} (file : string) :
  isDataUrl file = true -> getFullUrl file = file.
Proof. intros Hfile. unfold getFullUrl. by rewrite Hfile. Qed.

(** X10: whatever the dispatcher renders for a string: a spinner only
    while the item is loading and nothing only for the empty string; the
    address given to an image, a player, a frame or a link is
    [getFullUrl] of the reference (for inline data, the reference
    itself); a link is rendered for a remote reference only, decoded
    text and a preview of the data for an inline-data reference only. *)
Theorem dispatch_shows (host : Host) (file contentType : string) (loading : bool) :
  match @dispatch host file contentType loading with
  | Spinner => loading = true
  | Image a | Audio a | Video a | PdfFrame a => a = @getFullUrl host file
  | TextLink a _ | FileLink a _ => a = @getFullUrl host file /\ isDataUrl file = false
  | TextContent _ _ | FileContent _ _ => isDataUrl file = true
  | Nothing => file = ""
  end.
Proof.
  unfold dispatch.
  assert ((if isDataUrl file then file else getFullUrl file) = getFullUrl file) as ->.
  { destruct (isDataUrl file) eqn:Hfile; [|done]. by rewrite getFullUrl_inline. }
  destruct loading; [done|].
  repeat (match goal with
          | |- context [if ?b then _ else _] => destruct b eqn:?
          end; try done).
  by apply truthy_empty.
Qed.

Lemma split_singleton (c : ascii) (s : string) :
  Str.mem c s = false -> Str.split c s = [s].
Proof.
  unfold Str.mem. induction s as [|d s IH]; [done|].
  cbn -[Ascii.eqb]. intros [Hd Hs]%orb_false_elim. by rewrite Hd, IH.
Qed.

Lemma split_span (c : ascii) (s : string) :
  exists rest, Str.split c s
               = (Str.span (fun d => negb (Ascii.eqb c d)) s).1 :: rest.
Proof.
  induction s as [|d s [rest IH]]; [by eexists|].
  cbn -[Ascii.eqb]. destruct (Ascii.eqb c d); simpl; [by eexists|].
  rewrite IH. destruct (Str.span _ s). by eexists.
Qed.

Lemma split_first (c : ascii) (a rest : string) :
  Str.mem c a = false ->
  Str.split c (a +:+ String c rest) = a :: Str.split c rest.
Proof.
  unfold Str.mem. induction a as [|d a IH].
  - intros _. change ("" +:+ String c rest) with (String c rest).
    cbn -[Ascii.eqb]. by rewrite Ascii.eqb_refl.
  - change (String d a +:+ String c rest) with (String d (a +:+ String c rest)).
    cbn -[Ascii.eqb]. intros [Hd Ha]%orb_false_elim.
    by rewrite Hd, IH.
Qed.

Lemma dispatch_text `{Host} (file contentType contentType' payload : string)
    (loading : bool) :
  dispatch file contentType loading = TextContent contentType' payload ->
  payload = default "" (Str.split "," file !! 1).
Proof.
  unfold dispatch.
  repeat (match goal with
          | |- context [if ?b then _ else _] => destruct b eqn:?
          end; try done).
  intros [= _ <-]. apply or_empty.
Qed.

(** X11: the text that the dispatcher decodes for an inline-data
    reference shown as text is what stands between the first comma of the
    reference and the second one, or the end; what follows a second
    comma is dropped, and a reference without a comma gives the empty
    text. *)
Theorem dispatch_text_payload (host : Host) (file contentType contentType' payload : string)
    (loading : bool) :
  @dispatch host file contentType loading = TextContent contentType' payload ->
  (forall a rest, file = a +:+ "," +:+ rest -> Str.mem "," a = false ->
     payload = (Str.span (fun d => negb (Ascii.eqb "," d)) rest).1) /\
  (Str.mem "," file = false -> payload = "").
Proof.
  intros ->%dispatch_text. split.
  - intros a rest -> Ha. change ("," +:+ rest) with (String "," rest).
    rewrite (split_first "," a rest Ha). simpl.
    destruct (split_span "," rest) as [tl ->]. done.
  - intros Hfile. by rewrite split_singleton.
Qed.

Lemma dispatch_text_payload_witness :
  @dispatch example_host "data:text/plain;base64,aGk=,more" "text/plain" false
  = TextContent "text/plain" "aGk=" /\
  "data:text/plain;base64,aGk=,more" = "data:text/plain;base64" +:+ "," +:+ "aGk=,more" /\
  Str.mem "," "data:text/plain;base64" = false /\
  "aGk=" = (Str.span (fun d => negb (Ascii.eqb "," d)) "aGk=,more").1.
Proof.
  assert (@dispatch example_host "data:text/plain;base64,aGk=,more" "text/plain" false
          = TextContent "text/plain" "aGk=") as Hshown by reflexivity.
  split; [exact Hshown|]. split; [reflexivity|]. split; [reflexivity|].
  exact (proj1 (dispatch_text_payload example_host _ _ _ _ _ Hshown)
           "data:text/plain;base64" "aGk=,more" eq_refl eq_refl).
Defined.

(** ** The calls of [onChange] (lines 57-59, 187-191 and 262-266) *)















(** ** What the markup shows (lines 181-416) *)

Lemma step_resolution_kept `{Host} (c : Component) (e : event) :
  e = PointerUp \/ (exists b, e = SetOpen b) \/ (exists b, e = SetDisabled b) ->
  attributes (step c e).1 = attributes c /\ resolution (step c e).1 = resolution c.
Proof.
  intros [->|[[b ->]|[b ->]]]; simpl.
  - by destruct (disabled c).
  - by destruct (decide (b = open c)).
  - done.
Qed.

(** X13: the attachments of a tool call are rendered from the
    attributes, the resolution state and [grow] alone: the block of lines
    330-407 stands outside the test [open && !hide], so the attachments of
    a finished call are shown whether the panel is open, closed or
    hidden, and a click on the header, which opens or closes the panel,
    leaves them as they are. *)
Theorem attachments_regardless (host : Host) (below_sixty : string -> bool)
    (l l' : Layout) (c c' : Component) :
  (grow l' = grow l -> attributes c' = attributes c -> resolution c' = resolution c ->
   attachments (@view host below_sixty l' c') = attachments (@view host below_sixty l c)) /\
  (forall e, e = PointerUp \/ (exists b, e = SetOpen b) \/ (exists b, e = SetDisabled b) ->
     attachments (@view host below_sixty l (@step host c e).1)
     = attachments (@view host below_sixty l c)).
Proof.
  assert (forall l l' c c', grow l' = grow l -> attributes c' = attributes c ->
            resolution c' = resolution c ->
            attachments (@view host below_sixty l' c')
            = attachments (@view host below_sixty l c)) as Hframe.
  { intros l1 l2 c1 c2 Hgrow Hattributes Hresolution. unfold view. simpl.
    by rewrite Hgrow, Hattributes, Hresolution. }
  split; [apply Hframe|].
  intros e He. destruct (step_resolution_kept c e He) as [Hattributes Hresolution].
  by apply Hframe.
Qed.

Lemma attachments_regardless_witness :
  grow titled_panel = grow titled_panel /\
  attachments (@view example_host (fun _ => true) titled_panel
                 (@step example_host merge_scene PointerUp).1)
  = attachments (@view example_host (fun _ => true) titled_panel merge_scene).
Proof.
  split; [reflexivity|].
  apply (proj1 (attachments_regardless example_host (fun _ => true)
                  titled_panel titled_panel merge_scene
                  (@step example_host merge_scene PointerUp).1));
    reflexivity.
Defined.

(** X14: where the slot [content] is shown.  It is shown iff the panel is
    open and not hidden and either the panel has no title and grows (the
    slot is then inside the header) or it does not grow and is not a tool
    call (the slot is then below the header).  So a panel with a title
    that grows never shows the slot, nor anything else below its header;
    and a tool call that shows its arguments does not show the slot. *)
Theorem content_slot_shown (host : Host) (below_sixty : string -> bool)
    (l : Layout) (c : Component) :
  (content_shown (@view host below_sixty l c) = true <->
   open c = true /\ hide l = false /\
   ((title l = None /\ grow l = true) \/
    (attributes c ≫= Attr.type <> Some "tool_calls" /\ grow l = false))) /\
  (title l <> None -> grow l = true ->
   content_shown (@view host below_sixty l c) = false /\
   tool_details (@view host below_sixty l c) = None /\
   attachments (@view host below_sixty l c) = Return []) /\
  (is_Some (tool_details (@view host below_sixty l c)) ->
   content_shown (@view host below_sixty l c) = false).
Proof.
  unfold content_shown, view. simpl. split; [|split].
  - destruct (title l) as [t|], (open c), (hide l), (grow l);
      case_bool_decide; simpl; intuition congruence.
  - intros Htitle ->. destruct (title l) as [t|]; [|done].
    by rewrite !andb_false_r.
  - destruct (title l) as [t|], (open c), (hide l), (grow l);
      case_bool_decide; simpl; by intros [? ?].
Qed.

Lemma content_slot_shown_witness :
  title titled_panel <> None /\
  content_shown (@view example_host (fun _ => true)
                   {| title := Some "Details"; chevron := false; grow := true; hide := false |}
                   merge_scene) = false.
Proof.
  split; [discriminate|].
  apply (proj1 (proj2 (content_slot_shown example_host (fun _ => true)
           {| title := Some "Details"; chevron := false; grow := true; hide := false |}
           merge_scene))); [discriminate | reflexivity].
Defined.

(** X15: the label of the header and the spinner beside it.  A label of
    a finished block ([Thought for ...], [Analyzed], [View Result from
    ...]) is shown only when [done] is the string [true], and then no
    spinner is shown; so while the spinner turns the label is the one of
    a block in progress, or the title.  The title is shown for the blocks
    that are neither reasoning, nor code, nor a tool call. *)
Theorem header_label_finished (below_sixty : string -> bool) (t : string)
    (a : option Attr.t) :
  match header_label below_sixty t a with
  | ThoughtForSeconds d | ThoughtFor d =>
      a ≫= Attr.done = Some "true" /\ in_progress a = false /\
      a ≫= Attr.duration = Some d /\ d <> ""
  | Analyzed => a ≫= Attr.done = Some "true" /\ in_progress a = false
  | ViewResultFrom name =>
      a ≫= Attr.done = Some "true" /\ in_progress a = false /\
      name = a ≫= Attr.name
  | Thinking => a ≫= Attr.type = Some "reasoning"
  | Analyzing => a ≫= Attr.done <> Some "true"
  | Executing name => a ≫= Attr.done <> Some "true" /\ name = a ≫= Attr.name
  | Title t' =>
      t' = t /\ a ≫= Attr.type <> Some "reasoning" /\
      a ≫= Attr.type <> Some "code_interpreter" /\
      a ≫= Attr.type <> Some "tool_calls"
  end.
Proof.
  assert (a ≫= Attr.done = Some "true" -> in_progress a = false) as Hdone.
  { intros Hdone. unfold in_progress. by rewrite Hdone. }
  unfold header_label.
  destruct (decide (a ≫= Attr.type = Some "reasoning")) as [Hr|Hr].
  - destruct (a ≫= Attr.duration) as [d|]; [|done].
    case_bool_decide as Hd; simpl; [|done].
    destruct (Str.truthy d) eqn:Htruthy; [|done].
    assert (d <> "") by (by intros ->).
    destruct (below_sixty d); auto.
  - destruct (decide (a ≫= Attr.type = Some "code_interpreter")) as [Hc|Hc].
    + case_bool_decide; auto.
    + destruct (decide (a ≫= Attr.type = Some "tool_calls")) as [Ht|Ht].
      * case_bool_decide; auto.
      * auto.
Qed.

(** ** The locale of the date library (lines 17-26) *)

(** X16: [loadLocale] sets the first locale of the list for which the
    library does not raise, logs an error for each locale before it, in
    order, and does not try the locales after it; when the library
    raises for every locale, none is set and an error is logged for each
    of them. *)
Theorem loadLocale_first (raises : string -> option exn) (locales : list string) :
  (forall pre locale post,
      locales = pre ++ locale :: post ->
      Forall (fun l => raises l <> None) pre ->
      raises locale = None ->
      loadLocale raises locales = (Some locale, logged raises pre)) /\
  (Forall (fun l => raises l <> None) locales ->
   loadLocale raises locales = (None, logged raises locales)).
Proof.
  split.
  - intros pre locale post -> Hpre Hlocale.
    induction Hpre as [|l pre Hl Hpre IH]; simpl; [by rewrite Hlocale|].
    unfold logged in *. simpl. destruct (raises l) as [error|]; [|done].
    by rewrite IH.
  - intros Hall. induction Hall as [|l pre Hl Hall IH]; [done|].
    unfold logged in *. simpl. destruct (raises l) as [error|]; [|done].
    by rewrite IH.
Qed.

Lemma loadLocale_first_witness :
  ["de-AT"; "de"; "en"] = ["de-AT"] ++ "de" :: ["en"] /\
  Forall (fun l => no_regions l <> None) ["de-AT"] /\
  no_regions "de" = None /\
  loadLocale no_regions ["de-AT"; "de"; "en"] = (Some "de", [("de-AT", Exn "Error")]).
Proof.
  assert (Forall (fun l => no_regions l <> None) ["de-AT"]) as Hpre
    by (constructor; [discriminate | constructor]).
  split; [reflexivity|]. split; [exact Hpre|]. split; [reflexivity|].
  exact (proj1 (loadLocale_first no_regions ["de-AT"; "de"; "en"])
           ["de-AT"] "de" ["en"] eq_refl Hpre eq_refl).
Defined.

(** ** From the attributes to the attachments *)








